(* ===== verification/_CoqProject ===== *)
-Q . S2P
Prelude.v
JsString.v
Command.v
Navigation.v
Engines.v
Assistant.v
Drag.v
System.v
Load.v
