(* ===== verification/Prelude.v ===== *)
(** * A verification development of the VirtualAI2 voice assistant widget

    The program is one browser script, [src/js/virtual-assistant.js]. It
    drives a speech-controlled chat icon embedded in a page. It has two
    state machines that share only the icon element:

    - the assistant (lines 16-156 and 195-208): the flags [isListening],
      [hasWished] and [isSpeaking], the helpers [speak], [wishMe],
      [toggleChat], [startListening], [stopListening], [takeCommand] and
      [pageSwitcher], the recognition callbacks [recognition.onresult] and
      [recognition.onend], and the icon's [click] listener;
    - the long-press drag recogniser (lines 12-14 and 158-193):
      [isDragging], [offsetX], [offsetY], [longPressTimeout] and the
      listeners for [mousedown], [mousemove] and [mouseup].

    The script calls browser collaborators: the Web Speech recogniser
    (start, stop, result and end events), the speech synthesiser (a queue of
    utterances with one end event per utterance), the timer and
    animation-frame queues, and the DOM's rule that a [click] follows a
    [mouseup] on the element that got the [mousedown].

    ** Files

    - [Prelude] (this file): the scope [va_scope] with the pipeline
      notation [x |> f]; the outcome [js_result] of a JavaScript
      expression that may throw, with its bind notation [x <- c1 ;; c2]
      and the property read [js_deref] that throws on [undefined]; the
      hint databases [va]; the tactics of the development; generic lemmas
      on strings and lists ([count_if], [is_nil], filtering).
    - [JsString]: the string built-ins the script calls ([toLowerCase],
      [trim], [includes], [split], [pop], indexing, template strings) on
      ASCII text, with the lemmas the other files use ([includes] is
      substring search, [split] joins back to its text and its pieces do
      not contain the separator).
    - [Command]: the if-chain of [takeCommand] as a pure interpreter from a
      lower-cased message to an [Intent], the spoken replies, and
      [wishMe]'s choice of greeting by hour.
    - [Navigation]: the pure part of [pageSwitcher]. The current page is
      the last [/]-segment of the URL. The announced name is the part of
      the target before [.html].
    - [Engines]: the interface of the speech recogniser as the type class
      [Recognizer] with its laws [RecognizerLaws], and the Web Speech model
      [WebSpeech.WebRec] that satisfies them. A [stop()] during capture
      may still deliver a final result ([rec_pending]). The assistant's
      general theorems use the laws only. The file also holds the [result]
      event (results, alternatives, [resultIndex]), line 70's read of its
      transcript [transcriptOf], the settings [RecConfig] of lines 25-26,
      and [WebSpeech.delivered], the events an engine with given settings
      sends.
    - [Assistant]: the assistant as explicit state passing on the record
      [AState]. Each handler of the script is one definition. An [await] on
      [speak] becomes a continuation ([Cont]) stored with the queued
      utterance, the [SpeechSynthesisUtterance] object of lines 31-35; it
      runs when the synthesiser reports the end of that utterance
      ([resume]: [afterWish], [closeAfterCommand], [afterAlready],
      [afterOpening]). A [result] event carries the whole event, and
      [onresult] runs line 70's read, whose [TypeError] rejects the
      handler's promise (the effect [EReject]). The file defines the event
      step [step], the reachability relations [reachable] and
      [reachable_polite], the invariants [inv_wish], [inv_nav] and
      [inv_polite] with their preservation proofs, the spec's session
      machine with the refinement proof, the theorems, and concrete
      schedules run with the Web Speech recogniser.
    - [Drag]: the drag recogniser as a pair of script state and browser
      state (clock, timers, frames, and a ghost record of the held press).
      It defines [step], [reachable], [reachable_bracketed], the invariants
      [drag_inv] and [press_inv], and the theorems.
    - [System]: both machines on one icon. Pointer events go to the drag
      recogniser, and a release that hits the icon after a press on it is
      also a [click] for the assistant. The invariant [box_inv] of the
      composed system keeps the press offset inside the icon.
    - [Load]: the script's top level at page load: the support check and
      its [alert], the choice of the recogniser constructor and the
      [TypeError] when it is none, the recognition settings, and the
      handlers and listeners registered. The other files model the page
      after a load that ran to its end.

    ** What the theorems show (the claims are listed in PROJECT.json)

    - Assistant, on every schedule: the greeting is spoken at most once
      per page, and [hasWished] becomes true exactly when it ends and
      never goes back to false. Capture is active only while
      [isListening] holds, and [speak] always stops it. Navigation never
      targets the current page and starts only when its announcement has
      finished. [onend] restarts capture exactly when listening and not
      speaking. The synthesiser queue drains (a liveness property): as
      many utterance ends as there are queued utterances leave it silent,
      unless a navigation ends the page.
    - Assistant, when the user does not click during the announcement of
      [pageSwitcher] (a polite schedule): capture and output never
      overlap, at most one utterance is queued, the popup is open exactly
      while listening, and each transcript leads to exactly one
      [stopListening] with the popup closed. A result event whose
      transcript cannot be read throws in [onresult]: no command runs, the
      session keeps listening with the popup open, and the recogniser's
      [end] restarts capture.
    - Refinement: the spec's session machine (phases Idle, Greeting,
      Listening, Speaking, announcing and gone, with the greeted flag) is
      the relation [Assistant.spec_step]. Along every polite run, the
      abstraction [Assistant.abstract] of the script's state follows its
      transitions.
    - Departures from the spec, each a theorem over all states of its
      kind: both flags are true while the greeting plays; a click during
      an announcement is accepted and starts capture during the output
      (or makes [start] throw); the end of a reply toggles the popup
      instead of closing it, so after that race the popup opens while the
      assistant stops listening; a final result that [stop()] still lets
      through is acted on while the assistant is idle, a jump from Idle to
      Speaking the spec's machine does not have; a click before the
      recogniser's [end] makes [recognition.start] throw, and only the
      [end] that follows starts capture.
    - Interpreter: the if-chain equals a first-match search of the spec's
      command table, and the trim never changes the command. A message
      without any phrase is unrecognised. A message with a phrase of a row
      and none of an earlier row selects that row.
    - Navigation: the current page is the text after the last [/]. On
      every URL that ends in [/] it is empty, so the home page is reloaded.
    - Drag: with bracketed presses, a drag is under way only after a 300 ms
      hold. A shorter press leaves no drag, no timer and the icon in place.
      While dragging, the icon is at the last pointer position minus the
      press offset, with no drift. After the release nothing moves. The
      listener is attached exactly while dragging. The animation-frame
      call never moves the icon. From any state without a pending timer,
      a second press before the release leaves a timer that starts a drag
      with the button up.
    - System: the release after a drag is a click on the icon and
      activates the assistant. While dragging, the offsets lie within the
      icon's width and height.
    - Load: the script runs to its end exactly when the recogniser value
      it picks is a constructor and the icon exists. Without either
      recogniser name it shows the alert and then throws before
      registering any listener, so the drag is dead too; with a name whose
      value is no constructor it throws without an alert. The settings it
      applies make every delivered result event hold one final result,
      which line 70 reads.

    ** Bounds and fuel

    [JsString.split] recurses on the text after each separator. It takes
    fuel [1 + length s], and each round removes at least one character when
    the separator is not empty, so the fuel is never exhausted before the
    text is; the lemmas on [split] hold for exactly this fuel. The script
    splits only with ["/"] and [".html"]. Hours are the integers 0 to 23
    that [Date.getHours] returns. Times, delays and pixel coordinates are
    integers in [Z]: the script does no fixed-width arithmetic. A
    JavaScript number that may be [NaN] or [undefined] is an [option Z].
    Timer ids are natural numbers from 1.

    ** Not modelled

    CSS other than the [show] and [blurred] classes, the border, the
    cursor and the position; the synthesiser's audio and voice choice (an
    utterance is text with its settings, and its end is an event);
    [event.preventDefault()] of line 160; letter case outside ASCII in
    [toLowerCase] and white space outside ASCII in [trim] (ECMAScript also
    trims no-break and line-separator spaces). The settings [rate],
    [pitch] and [volume] are integers, since the script sets only whole
    numbers. [getBoundingClientRect()] (lines 162-163) is read as the
    icon's [left]/[top], as the icon is positioned by them with no margin
    or transform. Once the script navigates, the page's lifetime ends and
    the model stops. The browser's hit test sees only the icon's box. The
    recogniser and the synthesiser are browser code, modelled from the
    spec and the Web Speech API, not translated. *)

From stdpp Require Import base list strings.
From Stdlib Require Import Ascii ZArith Lia.

Declare Scope va_scope.
Delimit Scope va_scope with va.

(** Sequential composition of state updates, read left to right as the
    statements of a handler body. *)
Notation "x |> f" := (f x) (at level 41, left associativity, only parsing) : va_scope.

Create HintDb va discriminated.
Create Rewrite HintDb va.

(** ** Tactics *)

(** Invert a hypothesis and clean up. *)
Ltac invc H := inversion H; subst; clear H.

(** Case on every boolean test of the goal, remembering the outcome. *)
Ltac case_ifs :=
  repeat match goal with
         | |- context [if ?b then _ else _] =>
             let E := fresh "E" in destruct b eqn:E
         end.

(** Case on every boolean test of a hypothesis. *)
Ltac case_ifs_in H :=
  repeat match type of H with
         | context [if ?b then _ else _] =>
             let E := fresh "E" in destruct b eqn:E
         end.

(** Split boolean conjunctions and disjunctions in hypotheses, and turn
    decided propositions back into propositions. *)
Ltac bool_hyps :=
  repeat match goal with
         | H : (_ && _)%bool = true |- _ => apply andb_prop in H as [? ?]
         | H : (_ || _)%bool = false |- _ => apply orb_false_elim in H as [? ?]
         | H : negb _ = true |- _ => apply negb_true_iff in H
         | H : negb _ = false |- _ => apply negb_false_iff in H
         | H : bool_decide _ = true |- _ => apply bool_decide_eq_true in H
         end.

(** ** Generic definitions *)

(** Number of elements of a list satisfying a boolean test. *)
Definition count_if {A} (p : A -> bool) (l : list A) : nat :=
  length (List.filter p l).

(** Emptiness test that computes under [simpl]. *)
Definition is_nil {A} (l : list A) : bool :=
  match l with
  | [] => true
  | _ => false
  end.

(** The outcome of a JavaScript expression that may throw: its value, or
    the message of the exception. *)
Inductive js_result (A : Type) :=
  | JsOk (a : A)
  | JsThrow (error : string).
Arguments JsOk {A} a.
Arguments JsThrow {A} error.

Definition js_bind {A B} (c : js_result A) (f : A -> js_result B) : js_result B :=
  match c with
  | JsOk a => f a
  | JsThrow e => JsThrow e
  end.

(** Evaluate [c1], bind its value to [x] and go on with [c2]; an exception
    skips the rest. *)
Notation "x <- c1 ;; c2" := (js_bind c1 (fun x => c2))
  (at level 100, c1 at next level, right associativity) : va_scope.

Definition undefinedRead (prop : string) : string :=
  "TypeError: Cannot read properties of undefined (reading '" +:+ prop +:+ "')".

(** The value [o] whose property [prop] is read next: [undefined] ([None])
    throws a [TypeError]. *)
Definition js_deref {A} (o : option A) (prop : string) : js_result A :=
  match o with
  | Some a => JsOk a
  | None => JsThrow (undefinedRead prop)
  end.

(** ** Strings *)

Lemma string_app_cons (c : ascii) (a b : string) :
  (String c a +:+ b)%string = String c (a +:+ b).
Proof. done. Qed.

Lemma string_app_nil_l (s : string) : ("" +:+ s)%string = s.
Proof. done. Qed.

Lemma string_app_nil_r (s : string) : (s +:+ "")%string = s.
Proof. induction s as [|c s IH]; [done|]. by rewrite string_app_cons, IH. Qed.

Lemma string_app_assoc (a b c : string) :
  (a +:+ (b +:+ c))%string = ((a +:+ b) +:+ c)%string.
Proof. induction a as [|x a IH]; [done|]. by rewrite !string_app_cons, IH. Qed.

Lemma string_length_app (a b : string) :
  String.length (a +:+ b) = String.length a + String.length b.
Proof. induction a as [|x a IH]; [done|]. rewrite string_app_cons; simpl. by rewrite IH. Qed.

Lemma string_app_nil_inv (a b : string) :
  (a +:+ b)%string = "" -> a = "" /\ b = "".
Proof. destruct a; [done|]. rewrite string_app_cons. discriminate. Qed.

#[export] Hint Rewrite string_app_nil_r string_app_nil_l string_app_cons : va.
#[export] Hint Resolve string_app_nil_r string_app_assoc : va.

(** ** Lists and options *)

Lemma count_if_app {A} (p : A -> bool) (l1 l2 : list A) :
  count_if p (l1 ++ l2) = count_if p l1 + count_if p l2.
Proof. unfold count_if. by rewrite List.filter_app, length_app. Qed.

Lemma count_if_cons {A} (p : A -> bool) (x : A) (l : list A) :
  count_if p (x :: l) = (if p x then 1 else 0) + count_if p l.
Proof. unfold count_if; simpl. by destruct (p x). Qed.

Lemma count_if_nil {A} (p : A -> bool) : count_if p [] = 0.
Proof. done. Qed.

#[export] Hint Rewrite @count_if_app @count_if_cons @count_if_nil : va.

Lemma is_nil_true {A} (l : list A) : is_nil l = true <-> l = [].
Proof. destruct l; simpl; split; congruence. Qed.

Lemma is_nil_app_snoc {A} (l : list A) (x : A) : is_nil (l ++ [x]) = false.
Proof. by destruct l. Qed.

#[export] Hint Rewrite @is_nil_app_snoc : va.

(** Filtering keeps [Forall] and shortens the list. *)

Lemma Forall_filter' {A} (P : A -> Prop) (f : A -> bool) (l : list A) :
  Forall P l -> Forall P (List.filter f l).
Proof.
  rewrite !List.Forall_forall. intros H x [Hx _]%filter_In. by apply H.
Qed.

Lemma filter_length_le {A} (f : A -> bool) (l : list A) : length (List.filter f l) <= length l.
Proof. induction l as [|x l IH]; simpl; [lia|]. destruct (f x); simpl; lia. Qed.
