(* ===== verification/JsString.v ===== *)
(** * JsString: the JavaScript string built-ins the script calls

    [toLowerCase] (line 125), [trim] (line 70), [includes] (lines 129-147),
    [split] with [pop] and index [0] (lines 196 and 203), and the
    conversion of a value to text inside a template literal (line 204).
    Strings are Rocq [string]s, i.e. lists of 8-bit characters. Letter case
    is mapped for ASCII only, and the white space removed by [trim] is the
    ASCII part of ECMAScript's WhiteSpace and LineTerminator sets.
    [Array.prototype.pop] and indexing return [None] for JavaScript's
    [undefined].

    The reference specifications are [substring_of] for [includes] and
    [join] for [split]. *)

From stdpp Require Import base list strings.
From Stdlib Require Import Ascii Lia.
From S2P Require Import Prelude.

Module JsString.

(** ** Definitions *)

(** [String.prototype.toLowerCase] on one character: [A]-[Z] map to
    [a]-[z], every other character is kept. *)
Definition lower_char (c : ascii) : ascii :=
  let n := nat_of_ascii c in
  if (65 <=? n)%nat && (n <=? 90)%nat then ascii_of_nat (n + 32) else c.

Fixpoint toLowerCase (s : string) : string :=
  match s with
  | EmptyString => EmptyString
  | String c s' => String (lower_char c) (toLowerCase s')
  end.

(** White space removed by [String.prototype.trim]: tab, line feed,
    vertical tab, form feed, carriage return and space. *)
Definition is_js_space (c : ascii) : bool := Ascii.is_space c.

Fixpoint trimStart (s : string) : string :=
  match s with
  | EmptyString => EmptyString
  | String c s' => if is_js_space c then trimStart s' else s
  end.

(** A character is dropped from the end when it is white space and every
    character after it is dropped too. *)
Fixpoint trimEnd (s : string) : string :=
  match s with
  | EmptyString => EmptyString
  | String c s' =>
      let r := trimEnd s' in
      match r with
      | EmptyString => if is_js_space c then EmptyString else String c EmptyString
      | _ => String c r
      end
  end.

Definition trim (s : string) : string := trimEnd (trimStart s).

(** [strip_prefix p s] is [Some r] when [s] is [p] followed by [r]. *)
Fixpoint strip_prefix (p s : string) : option string :=
  match p with
  | EmptyString => Some s
  | String a p' =>
      match s with
      | EmptyString => None
      | String b s' => if decide (a = b) then strip_prefix p' s' else None
      end
  end.

(** [s.includes(p)]: [p] occurs at some position of [s]. *)
Fixpoint includes (s p : string) : bool :=
  match strip_prefix p s with
  | Some _ => true
  | None =>
      match s with
      | EmptyString => false
      | String _ s' => includes s' p
      end
  end.

(** The text before the first occurrence of [sep] in [s], and the text
    after it. *)
Fixpoint break_at (sep s : string) : option (string * string) :=
  match strip_prefix sep s with
  | Some rest => Some (EmptyString, rest)
  | None =>
      match s with
      | EmptyString => None
      | String c s' =>
          match break_at sep s' with
          | Some (before, after) => Some (String c before, after)
          | None => None
          end
      end
  end.

(** [s.split(sep)] for a non-empty separator: cut at the first occurrence
    and go on with the rest. Each round consumes the separator, so
    [1 + length s] rounds are enough. *)
Fixpoint split_fuel (fuel : nat) (s sep : string) : list string :=
  match fuel with
  | O => [s]
  | S f =>
      match break_at sep s with
      | None => [s]
      | Some (before, after) => before :: split_fuel f after sep
      end
  end.

Definition split (s sep : string) : list string :=
  split_fuel (S (String.length s)) s sep.

(** [arr.pop()] returns the last element, [undefined] on an empty array. *)
Definition pop (l : list string) : option string := last l.

(** [arr[0]]. *)
Definition at0 (l : list string) : option string := head l.

(** A value inside a template literal: [undefined] prints as the word. *)
Definition templateString (v : option string) : string :=
  match v with
  | Some s => s
  | None => "undefined"
  end.

(** Every character is white space. *)
Fixpoint all_space (w : string) : bool :=
  match w with
  | EmptyString => true
  | String c w' => is_js_space c && all_space w'
  end.

(** The first character exists and is not white space. *)
Definition starts_nonspace (s : string) : bool :=
  match s with
  | EmptyString => false
  | String c _ => negb (is_js_space c)
  end.

(** The last character exists and is not white space. *)
Fixpoint ends_nonspace (s : string) : bool :=
  match s with
  | EmptyString => false
  | String c EmptyString => negb (is_js_space c)
  | String _ s' => ends_nonspace s'
  end.

(** ** Reference specifications *)

Definition substring_of (p s : string) : Prop :=
  exists a b, s = (a +:+ p +:+ b)%string.

(** [Array.prototype.join]. *)
Fixpoint join (sep : string) (l : list string) : string :=
  match l with
  | [] => EmptyString
  | [x] => x
  | x :: l' => (x +:+ sep +:+ join sep l')%string
  end.

(** ** Lemmas on [strip_prefix] *)

Lemma strip_prefix_spec (p s r : string) :
  strip_prefix p s = Some r <-> s = (p +:+ r)%string.
Proof.
  revert s. induction p as [|a p IH]; intros [|b s]; simpl;
    rewrite ?string_app_nil_l, ?string_app_cons.
  - split; congruence.
  - split; congruence.
  - split; discriminate.
  - case_decide; subst.
    + rewrite IH. split; [by intros ->| by intros [=]].
    + split; [discriminate | by intros [=]].
Qed.

Lemma strip_prefix_app (p s r t : string) :
  strip_prefix p s = Some r -> strip_prefix p (s +:+ t) = Some (r +:+ t)%string.
Proof.
  rewrite !strip_prefix_spec. intros ->. by rewrite string_app_assoc.
Qed.

Lemma strip_prefix_length (p s r : string) :
  strip_prefix p s = Some r -> String.length s = String.length p + String.length r.
Proof. rewrite strip_prefix_spec. intros ->. apply string_length_app. Qed.

#[export] Hint Resolve strip_prefix_app : va.

(** ** [includes] is substring search *)

Lemma includes_nil (p : string) :
  includes EmptyString p = true <-> p = EmptyString.
Proof. destruct p; simpl; split; congruence. Qed.

(** [includes] decides the substring relation. *)
Theorem includes_spec (s p : string) :
  includes s p = true <-> substring_of p s.
Proof.
  unfold substring_of. induction s as [|c s IH].
  - rewrite includes_nil. split.
    + intros ->. by exists EmptyString, EmptyString.
    + intros (a & b & H). symmetry in H.
      apply string_app_nil_inv in H as [_ H].
      by apply string_app_nil_inv in H as [-> _].
  - simpl. destruct (strip_prefix p (String c s)) as [r|] eqn:E.
    + split; [|done]. intros _. exists EmptyString, r.
      by apply strip_prefix_spec in E.
    + rewrite IH. split.
      * intros (a & b & ->). by exists (String c a), b.
      * intros ([|c' a] & b & H).
        -- rewrite string_app_nil_l in H.
           by apply strip_prefix_spec in H; rewrite H in E.
        -- rewrite string_app_cons in H. injection H as -> ->. by exists a, b.
Qed.

Lemma includes_app_r (s t p : string) :
  includes s p = true -> includes (s +:+ t) p = true.
Proof.
  rewrite !includes_spec. intros (a & b & ->). exists a, (b +:+ t)%string.
  by rewrite <- !string_app_assoc.
Qed.

Lemma includes_app_l (s t p : string) :
  includes t p = true -> includes (s +:+ t) p = true.
Proof.
  rewrite !includes_spec. intros (a & b & ->). exists (s +:+ a)%string, b.
  by rewrite <- !string_app_assoc.
Qed.

Lemma includes_refl (p : string) : includes p p = true.
Proof. apply includes_spec. exists EmptyString, EmptyString. by rewrite string_app_nil_r. Qed.

Lemma includes_head (c : ascii) (s : string) :
  includes (String c s) (String c EmptyString) = true.
Proof. simpl. by rewrite decide_True. Qed.

#[export] Hint Resolve includes_app_r includes_app_l includes_refl includes_head : va.

(** ** [break_at] *)

Lemma break_at_None (sep s : string) :
  break_at sep s = None <-> includes s sep = false.
Proof.
  induction s as [|c s IH]; simpl; destruct (strip_prefix sep _); try done.
  destruct (break_at sep s) as [[]|]; rewrite <- IH; split; congruence.
Qed.

Lemma break_at_Some (sep s before after : string) :
  break_at sep s = Some (before, after) -> s = (before +:+ sep +:+ after)%string.
Proof.
  revert before. induction s as [|c s IH]; intros before; simpl;
    destruct (strip_prefix sep _) as [r|] eqn:E.
  - intros [= <- <-]. rewrite string_app_nil_l. by apply strip_prefix_spec.
  - discriminate.
  - intros [= <- <-]. rewrite string_app_nil_l. by apply strip_prefix_spec.
  - destruct (break_at sep s) as [[b a]|]; [|discriminate].
    intros [= <- <-]. rewrite string_app_cons. f_equal. by apply IH.
Qed.

(** The text before the first separator contains no separator. *)
Lemma break_at_first (sep s before after : string) :
  sep <> EmptyString -> break_at sep s = Some (before, after) ->
  includes before sep = false.
Proof.
  intros Hsep. revert before. induction s as [|c s IH]; intros before; simpl;
    destruct (strip_prefix sep _) as [r|] eqn:E.
  - intros [= <- _]. by destruct sep.
  - discriminate.
  - intros [= <- _]. by destruct sep.
  - destruct (break_at sep s) as [[b a]|] eqn:Eb; [|discriminate].
    intros [= <- ->]. simpl. destruct (strip_prefix sep (String c b)) as [r|] eqn:Ec.
    + apply break_at_Some in Eb. subst s.
      apply (strip_prefix_app _ _ _ (sep +:+ after)%string) in Ec.
      rewrite string_app_cons in Ec. congruence.
    + by apply (IH b).
Qed.

Lemma break_at_shorter (sep s before after : string) :
  sep <> EmptyString -> break_at sep s = Some (before, after) ->
  String.length after < String.length s.
Proof.
  intros Hsep Hb. apply break_at_Some in Hb as ->.
  rewrite !string_length_app. destruct sep; [done|]. simpl. lia.
Qed.

(** ** [split] *)

Lemma split_fuel_not_nil (f : nat) (s sep : string) : split_fuel f s sep <> [].
Proof. destruct f; simpl; [done|]. by destruct (break_at sep s) as [[]|]. Qed.

Lemma join_cons (sep x : string) (l : list string) :
  l <> [] -> join sep (x :: l) = (x +:+ sep +:+ join sep l)%string.
Proof. by destruct l. Qed.

(** [split_fuel] followed by [join] gives back the text, whatever the
    fuel. *)
Lemma split_fuel_join (f : nat) (s sep : string) :
  join sep (split_fuel f s sep) = s.
Proof.
  revert s. induction f as [|f IH]; intros s; simpl; [done|].
  destruct (break_at sep s) as [[b a]|] eqn:E; [|done].
  rewrite join_cons by apply split_fuel_not_nil. rewrite IH.
  symmetry. by apply break_at_Some.
Qed.

Lemma split_fuel_pieces (f : nat) (s sep : string) :
  sep <> EmptyString -> String.length s < f ->
  Forall (fun piece => includes piece sep = false) (split_fuel f s sep).
Proof.
  intros Hsep. revert s. induction f as [|f IH]; intros s Hf; [lia|]. simpl.
  destruct (break_at sep s) as [[b a]|] eqn:E.
  - constructor; [by eapply break_at_first|].
    apply IH. apply break_at_shorter in E; [lia|done].
  - constructor; [by apply break_at_None|constructor].
Qed.

Lemma split_not_nil (s sep : string) : split s sep <> [].
Proof. apply split_fuel_not_nil. Qed.

(** ** [toLowerCase] *)

Lemma lower_char_idem (c : ascii) : lower_char (lower_char c) = lower_char c.
Proof. destruct c as [[] [] [] [] [] [] [] []]; reflexivity. Qed.

Lemma toLowerCase_idem (s : string) : toLowerCase (toLowerCase s) = toLowerCase s.
Proof. induction s as [|c s IH]; simpl; [done|]. by rewrite lower_char_idem, IH. Qed.

Lemma toLowerCase_app (a b : string) :
  toLowerCase (a +:+ b) = (toLowerCase a +:+ toLowerCase b)%string.
Proof.
  induction a as [|c a IH]; [done|]. rewrite string_app_cons. simpl. by rewrite IH.
Qed.

#[export] Hint Rewrite toLowerCase_app toLowerCase_idem : va.

(** A substring stays a substring after lower-casing both texts. *)
Lemma includes_toLowerCase (s p : string) :
  includes s p = true -> includes (toLowerCase s) (toLowerCase p) = true.
Proof.
  rewrite !includes_spec. intros (a & b & ->).
  exists (toLowerCase a), (toLowerCase b). by rewrite !toLowerCase_app.
Qed.

(** ** [trim] removes white space only at the ends *)

Lemma all_space_app (a b : string) :
  all_space (a +:+ b) = all_space a && all_space b.
Proof.
  induction a as [|c a IH]; [done|]. rewrite string_app_cons. simpl.
  by rewrite IH, andb_assoc.
Qed.

Lemma trimStart_decomp (s : string) :
  exists w, all_space w = true /\ s = (w +:+ trimStart s)%string.
Proof.
  induction s as [|c s (w & Hw & Hs)]; simpl; [by exists EmptyString|].
  destruct (is_js_space c) eqn:E.
  - exists (String c w). simpl. rewrite E, Hw, string_app_cons. split; [done|]. by f_equal.
  - by exists EmptyString.
Qed.

Lemma trimEnd_decomp (s : string) :
  exists w, all_space w = true /\ s = (trimEnd s +:+ w)%string.
Proof.
  induction s as [|c s (w & Hw & Hs)]; simpl; [by exists EmptyString|].
  destruct (trimEnd s) as [|c' r] eqn:Et.
  - rewrite string_app_nil_l in Hs. subst s.
    destruct (is_js_space c) eqn:E.
    + exists (String c w). simpl. by rewrite E, Hw.
    + exists w. by rewrite string_app_cons, string_app_nil_l.
  - exists w. split; [done|]. rewrite string_app_cons. by f_equal.
Qed.

Lemma trim_decomp (s : string) :
  exists w1 w2, all_space w1 = true /\ all_space w2 = true /\
    s = (w1 +:+ trim s +:+ w2)%string.
Proof.
  destruct (trimStart_decomp s) as (w1 & H1 & E1).
  destruct (trimEnd_decomp (trimStart s)) as (w2 & H2 & E2).
  exists w1, w2. unfold trim. rewrite <- E2. by repeat split.
Qed.

Lemma all_space_no_ends (x : string) :
  all_space x = true -> ends_nonspace x = false.
Proof.
  induction x as [|c x IH]; simpl; [done|]. intros [Hc Hx]%andb_prop.
  destruct x; [by rewrite Hc|]. by apply IH.
Qed.

(** A text that ends in a non-space character and is a prefix of [t]
    followed by spaces is a prefix of [t] itself. *)
Lemma prefix_before_spaces (t w x b : string) :
  all_space w = true -> ends_nonspace x = true ->
  (t +:+ w)%string = (x +:+ b)%string -> exists b', t = (x +:+ b')%string.
Proof.
  intros Hw. revert t. induction x as [|c x IH]; intros t Hx Heq; [discriminate|].
  rewrite string_app_cons in Heq. destruct t as [|c' t].
  - rewrite string_app_nil_l in Heq. subst w. simpl in Hw.
    apply andb_prop in Hw as [Hc Hw]. rewrite all_space_app in Hw.
    apply andb_prop in Hw as [Hw _]. apply all_space_no_ends in Hw.
    destruct x as [|a x]; [simpl in Hx; by rewrite Hc in Hx|].
    assert (ends_nonspace (String c (String a x)) = ends_nonspace (String a x)) as Hs by done.
    congruence.
  - rewrite string_app_cons in Heq. injection Heq as -> Heq.
    destruct x as [|c'' x].
    + exists t. done.
    + destruct (IH t) as (b' & ->); [done|done|].
      exists b'. by rewrite !string_app_cons.
Qed.

(** A text that starts with a non-space character, found in spaces
    followed by [x], is found in [x]. *)
Lemma suffix_after_spaces (w x a y : string) :
  all_space w = true -> starts_nonspace y = true ->
  (w +:+ x)%string = (a +:+ y)%string -> exists a', x = (a' +:+ y)%string.
Proof.
  revert a. induction w as [|c w IH]; intros a Hw Hy Heq.
  - by exists a.
  - simpl in Hw. apply andb_prop in Hw as [Hc Hw]. rewrite string_app_cons in Heq.
    destruct a as [|c' a].
    + rewrite string_app_nil_l in Heq. destruct y as [|cy y]; [done|].
      injection Heq as -> _. simpl in Hy. by rewrite Hc in Hy.
    + rewrite string_app_cons in Heq. injection Heq as -> Heq. by apply (IH a).
Qed.

Lemma includes_spaces_r (x w p : string) :
  all_space w = true -> ends_nonspace p = true ->
  includes (x +:+ w) p = includes x p.
Proof.
  intros Hw Hp. destruct (includes x p) eqn:E; [by apply includes_app_r|].
  apply not_true_iff_false. rewrite includes_spec. intros (a & b & Heq).
  rewrite string_app_assoc in Heq.
  destruct (prefix_before_spaces x w (a +:+ p) b) as (b' & Hx); [done| |done|].
  - clear -Hp. induction a as [|c a IH]; [done|]. rewrite string_app_cons. simpl.
    destruct (a +:+ p)%string eqn:E; [|done]. apply string_app_nil_inv in E as [_ ->]. done.
  - apply not_true_iff_false in E. apply E, includes_spec. exists a, b'.
    by rewrite string_app_assoc.
Qed.

Lemma includes_spaces_l (w x p : string) :
  all_space w = true -> starts_nonspace p = true ->
  includes (w +:+ x) p = includes x p.
Proof.
  intros Hw Hp. destruct (includes x p) eqn:E; [by apply includes_app_l|].
  apply not_true_iff_false. rewrite includes_spec. intros (a & b & Heq).
  destruct (suffix_after_spaces w x a (p +:+ b)) as (a' & Hx); [done| |done|].
  - destruct p; [done|]. by rewrite string_app_cons.
  - apply not_true_iff_false in E. apply E, includes_spec. by exists a', b.
Qed.

Lemma lower_char_space (c : ascii) : is_js_space (lower_char c) = is_js_space c.
Proof. destruct c as [[] [] [] [] [] [] [] []]; reflexivity. Qed.

Lemma all_space_toLowerCase (w : string) :
  all_space w = true -> all_space (toLowerCase w) = true.
Proof. induction w as [|c w IH]; simpl; [done|]. rewrite lower_char_space. intros [-> ?]%andb_prop. auto. Qed.

(** Lower-casing the trimmed text or the whole text finds the same words,
    when the word starts and ends with a non-space character. *)
Lemma includes_toLowerCase_trim (t p : string) :
  starts_nonspace p = true -> ends_nonspace p = true ->
  includes (toLowerCase (trim t)) p = includes (toLowerCase t) p.
Proof.
  intros Hs He. destruct (trim_decomp t) as (w1 & w2 & H1 & H2 & Ht).
  rewrite Ht at 2. rewrite !toLowerCase_app.
  rewrite includes_spaces_l by auto using all_space_toLowerCase.
  by rewrite includes_spaces_r by auto using all_space_toLowerCase.
Qed.

End JsString.
