(* ===== verification/Command.v ===== *)
(** * Command: the command interpreter of [takeCommand] and [wishMe]'s greeting

    [interpret] is the condition chain of [takeCommand] (lines 129-151) on
    the lower-cased message. Its result is the branch taken, as an
    [Intent]. [reply] is the text each speaking branch passes to [speak].
    [greetingText] is [wishMe]'s choice of greeting by hour (lines 57-63).
    The spec's command table is [command_table], and [first_match] is its
    first-match reading. [interpret_first_match] shows that the two agree. *)

From stdpp Require Import base list strings.
From Stdlib Require Import ZArith Lia.
From S2P Require Import Prelude JsString.

Module Command.
Import JsString.

(** ** Definitions *)

(** The branches of [takeCommand]. A navigation branch carries the URL
    passed to [pageSwitcher]. *)
Inductive Intent :=
  | Greeting
  | NavigateTo (pageUrl : string)
  | Identity
  | Origin
  | Capability
  | Farewell
  | Unrecognized.

#[export] Instance Intent_eq_dec : EqDecision Intent.
Proof. solve_decision. Defined.

(** The condition chain of [takeCommand] on [lowerCaseMessage]. *)
Definition interpret (lowerCaseMessage : string) : Intent :=
  let m := lowerCaseMessage in
  if includes m "hello" then Greeting
  else if includes m "go to classes page" then NavigateTo "classes.html"
  else if includes m "go to contact page" then NavigateTo "contact.html"
  else if includes m "go to home page" then NavigateTo "index.html"
  else if includes m "go to courses page" then NavigateTo "courses.html"
  else if includes m "go to blog page" then NavigateTo "Blog.html"
  else if includes m "what is your name" then Identity
  else if includes m "who made you" then Origin
  else if includes m "what can you do" then Capability
  else if includes m "stop" || includes m "goodbye" then Farewell
  else Unrecognized.

(** The text each branch of [takeCommand] speaks; the navigation branches
    call [pageSwitcher] instead. *)
Definition reply (i : Intent) : option string :=
  match i with
  | Greeting => Some "Hello, how can I help you?"
  | NavigateTo _ => None
  | Identity => Some "My name is Edith. I am a virtual assistant at this page."
  | Origin => Some "I am made by SmartCoderRahis for assistance on his website."
  | Capability => Some ("I can assist you through this page. I can do lots of things " +:+
                        "except the things which are in the developing phase.")
  | Farewell => Some "I am gonna sleep now. Goodbye!"
  | Unrecognized => Some ("I am sorry! I am currently in the developing phase. " +:+
                          "Sorry for the inconvenience.")
  end.

Definition morningText : string := "Good Morning, How can I help you?".
Definition afternoonText : string := "Good Afternoon, How can I help you?".
Definition eveningText : string := "Good Evening, How can I help you?".

(** [wishMe]'s greeting for the hour [hrs] returned by [Date.getHours]. *)
Definition greetingText (hrs : Z) : string :=
  if (0 <=? hrs)%Z && (hrs <? 12)%Z then morningText
  else if (12 <=? hrs)%Z && (hrs <? 16)%Z then afternoonText
  else eveningText.

(** The intent [takeCommand] acts on for a recognised transcript: the
    [onresult] handler trims it (line 70) and [takeCommand] lower-cases it
    (line 125) before the condition chain. *)
Definition command_of_transcript (transcript : string) : Intent :=
  interpret (toLowerCase (trim transcript)).

(** ** The spec's command table *)

Definition command_table : list (list string * Intent) :=
  [ (["hello"], Greeting);
    (["go to classes page"], NavigateTo "classes.html");
    (["go to contact page"], NavigateTo "contact.html");
    (["go to home page"], NavigateTo "index.html");
    (["go to courses page"], NavigateTo "courses.html");
    (["go to blog page"], NavigateTo "Blog.html");
    (["what is your name"], Identity);
    (["who made you"], Origin);
    (["what can you do"], Capability);
    (["stop"; "goodbye"], Farewell) ].

(** A row matches when one of its phrases occurs in the text. *)
Definition row_matches (m : string) (row : list string * Intent) : bool :=
  existsb (includes m) row.1.

(** First matching row wins; no match is [Unrecognized]. *)
Fixpoint first_match (table : list (list string * Intent)) (m : string) : Intent :=
  match table with
  | [] => Unrecognized
  | row :: rest => if row_matches m row then row.2 else first_match rest m
  end.

Definition all_phrases : list string := concat (map fst command_table).

(** The phrases of the table do not occur inside one another. *)
Definition phrases_disjoint_check : bool :=
  forallb (fun p => forallb (fun q => bool_decide (p = q) || negb (includes p q)) all_phrases)
    all_phrases.

(** ** The if-chain is the first-match reading of the table *)

Lemma interpret_first_match (m : string) :
  interpret m = first_match command_table m.
Proof.
  unfold interpret, first_match, row_matches; simpl. by rewrite !orb_false_r.
Qed.

Lemma first_match_app (pre post : list (list string * Intent)) (row : list string * Intent) (m : string) :
  Forall (fun r => row_matches m r = false) pre -> row_matches m row = true ->
  first_match (pre ++ row :: post) m = row.2.
Proof.
  induction 1 as [|r pre Hr _ IH]; intros Hrow; simpl; [by rewrite Hrow|].
  rewrite Hr. by apply IH.
Qed.

Lemma first_match_ext (table : list (list string * Intent)) (m1 m2 : string) :
  Forall (fun row => Forall (fun p => includes m1 p = includes m2 p) row.1) table ->
  first_match table m1 = first_match table m2.
Proof.
  induction 1 as [|row t Hrow _ IH]; simpl; [done|].
  assert (row_matches m1 row = row_matches m2 row) as ->; [|by rewrite IH].
  unfold row_matches. induction Hrow as [|p ps Hp _ IHp]; simpl; [done|].
  by rewrite Hp, IHp.
Qed.

Lemma phrases_edges :
  Forall (fun row => Forall (fun p => starts_nonspace p = true /\ ends_nonspace p = true) row.1)
    command_table.
Proof. repeat constructor. Qed.

(** C21: the command acted on for a transcript is the intent of the first
    row of the spec's command table with a phrase that occurs in the
    lower-cased transcript, and [Unrecognized] when there is none; the
    [trim] of [onresult] never changes it. *)
Theorem command_of_transcript_table (transcript : string) :
  command_of_transcript transcript = first_match command_table (toLowerCase transcript).
Proof.
  unfold command_of_transcript. rewrite interpret_first_match.
  apply first_match_ext. eapply Forall_impl; [apply phrases_edges|]. intros row Hrow.
  eapply Forall_impl; [apply Hrow|]. intros p [Hs He]. by apply includes_toLowerCase_trim.
Qed.

Lemma first_match_none (table : list (list string * Intent)) (m : string) :
  Forall (fun r => r.2 <> Unrecognized) table ->
  first_match table m = Unrecognized <-> Forall (fun r => row_matches m r = false) table.
Proof.
  induction 1 as [|r t Hr _ IH]; simpl; [split; constructor|].
  destruct (row_matches m r) eqn:E.
  - split; [done|]. intros Hf. inversion Hf; congruence.
  - rewrite IH. split; [by constructor|]. by inversion 1.
Qed.

Lemma row_matches_false (m : string) (row : list string * Intent) :
  row_matches m row = false <-> Forall (fun p => includes m p = false) row.1.
Proof.
  unfold row_matches. induction row.1 as [|p ps IH]; simpl; [split; constructor|].
  rewrite orb_false_iff, IH. split; [intros [? ?]; by constructor|by inversion 1].
Qed.

(** C22: the message is unrecognised exactly when it contains none of the
    phrases of the command table. *)
Theorem interpret_unrecognized (m : string) :
  interpret m = Unrecognized <-> Forall (fun p => includes m p = false) all_phrases.
Proof.
  rewrite interpret_first_match, first_match_none
    by (repeat constructor; discriminate).
  unfold all_phrases. rewrite Forall_concat, Forall_map.
  apply Forall_iff. intros row. apply row_matches_false.
Qed.

(** C23: a message that contains a phrase of a row, and no phrase of an
    earlier row, selects that row's intent. *)
Theorem interpret_row (pre post : list (list string * Intent)) (ps : list string) (i : Intent) (m : string) :
  command_table = pre ++ (ps, i) :: post ->
  Forall (fun r => row_matches m r = false) pre ->
  Exists (fun p => includes m p = true) ps ->
  interpret m = i.
Proof.
  intros Ht Hpre Hps. rewrite interpret_first_match, Ht.
  apply (first_match_app _ _ (ps, i)); [done|].
  unfold row_matches; simpl. apply existsb_exists.
  apply List.Exists_exists in Hps as (p & Hp & Hin). by exists p.
Qed.

Lemma phrases_disjoint_check_true : phrases_disjoint_check = true.
Proof. vm_compute. reflexivity. Qed.

(** no phrase of the command table occurs inside another one, so the
    order of the table only matters for messages that combine phrases. *)
Lemma phrases_disjoint (p q : string) :
  In p all_phrases -> In q all_phrases -> includes p q = true -> p = q.
Proof.
  intros Hp Hq Hpq. pose proof phrases_disjoint_check_true as H.
  unfold phrases_disjoint_check in H. rewrite forallb_forall in H.
  specialize (H p Hp). rewrite forallb_forall in H. specialize (H q Hq).
  rewrite Hpq in H. simpl in H. rewrite orb_false_r in H.
  by apply bool_decide_eq_true in H.
Qed.

(** every phrase of the table, written in any letter case, selects the
    intent of its row. *)
Lemma interpret_phrase (ps : list string) (i : Intent) (p s : string) :
  In (ps, i) command_table -> In p ps -> toLowerCase s = p ->
  interpret (toLowerCase s) = i.
Proof.
  intros Hrow Hp ->. simpl in Hrow.
  repeat destruct Hrow as [[= <- <-]|Hrow]; try done;
    simpl in Hp; repeat destruct Hp as [<-|Hp]; try done; vm_compute; reflexivity.
Qed.

(** ** The greeting *)

Lemma greeting_texts_distinct :
  morningText <> afternoonText /\ afternoonText <> eveningText /\ morningText <> eveningText.
Proof. repeat split; discriminate. Qed.

(** [wishMe] says good morning exactly for the hours 0 to 11, good
    afternoon exactly for 12 to 15, and good evening otherwise. *)
Lemma greetingText_bands (hrs : Z) :
  (greetingText hrs = morningText <-> (0 <= hrs < 12)%Z) /\
  (greetingText hrs = afternoonText <-> (12 <= hrs < 16)%Z) /\
  (greetingText hrs = eveningText <-> ~ (0 <= hrs < 16)%Z).
Proof.
  pose proof greeting_texts_distinct as (D1 & D2 & D3).
  unfold greetingText.
  destruct (Z.leb_spec 0 hrs), (Z.ltb_spec hrs 12), (Z.leb_spec 12 hrs), (Z.ltb_spec hrs 16);
    simpl; repeat split; intros; try done; try lia; congruence.
Qed.

(** ** Witnesses *)

Lemma interpret_row_witness : interpret "please go to blog page now" = NavigateTo "Blog.html".
Proof.
  apply (interpret_row (firstn 5 command_table) (skipn 6 command_table) ["go to blog page"]).
  - reflexivity.
  - vm_compute. repeat constructor.
  - vm_compute. repeat constructor.
Defined.

End Command.
