(* ===== verification/Navigation.v ===== *)
(** * Navigation: the decisions of [pageSwitcher]

    [pageSwitcher] (lines 195-208) compares the last [/]-segment of
    [window.location.href] with the target URL. On a match it speaks
    [alreadyText]. Otherwise it announces the target by its name, the part
    of the URL before [.html], and navigates once the announcement ends.
    This file models the pure computations. The speaking and the
    navigation are in [Assistant.pageSwitcher]. *)

From stdpp Require Import base list strings.
From Stdlib Require Import Ascii Lia.
From S2P Require Import Prelude JsString.

Module Navigation.
Import JsString.

(** ** Definitions *)

(** [window.location.href.split('/').pop()] (line 196). *)
Definition currentPageUrl (href : string) : option string := pop (split href "/").

(** [pageUrl.split('.html')[0]] (line 203). *)
Definition pageName (pageUrl : string) : option string := at0 (split pageUrl ".html").

Definition alreadyText : string := "You are already on this page.".

(** [`Opening ${pageName} page.`] (line 204). *)
Definition openingText (pageUrl : string) : string :=
  "Opening " +:+ templateString (pageName pageUrl) +:+ " page.".

(** [currentPageUrl === pageUrl] (line 198): [undefined] equals no string. *)
Definition isCurrentPage (href pageUrl : string) : bool :=
  bool_decide (currentPageUrl href = Some pageUrl).

(** ** Lemmas *)

(** After the last occurrence of a one-character separator comes the same
    text, however the text before it is cut. *)
Lemma last_segment_unique (c : ascii) (a b x y : string) :
  includes x (String c EmptyString) = false -> includes y (String c EmptyString) = false ->
  (a +:+ String c x)%string = (b +:+ String c y)%string -> x = y.
Proof.
  intros Hx Hy. revert b. induction a as [|ca a IH]; intros [|cb b] Heq;
    rewrite ?string_app_nil_l, ?string_app_cons in Heq.
  - by injection Heq.
  - injection Heq as -> Heq. exfalso. apply not_true_iff_false in Hx. apply Hx.
    rewrite Heq. apply includes_app_l, includes_head.
  - injection Heq as -> Heq. exfalso. apply not_true_iff_false in Hy. apply Hy.
    rewrite <- Heq. apply includes_app_l, includes_head.
  - injection Heq as -> Heq. by apply (IH b).
Qed.

Lemma split_snoc (s sep : string) :
  exists l x, split s sep = l ++ [x].
Proof.
  destruct (split s sep) as [|y l] eqn:E using rev_ind; [by apply split_not_nil in E|].
  by exists l, y.
Qed.

Lemma join_snoc (sep x : string) (l : list string) :
  l <> [] -> join sep (l ++ [x]) = (join sep l +:+ sep +:+ x)%string.
Proof.
  induction l as [|y l IH]; [congruence|]. intros _. destruct l as [|z l].
  - done.
  - change ((y :: z :: l) ++ [x]) with (y :: ((z :: l) ++ [x])).
    rewrite join_cons by (by destruct l). rewrite IH by done.
    rewrite (join_cons sep y (z :: l)) by done. by rewrite !string_app_assoc.
Qed.

(** The last [/]-segment of a URL, when it holds no [/]. *)
Lemma last_segment (base page : string) :
  includes page "/" = false ->
  currentPageUrl (base +:+ "/" +:+ page) = Some page.
Proof.
  intros Hpage. unfold currentPageUrl, pop.
  set (s := (base +:+ "/" +:+ page)%string).
  destruct (split_snoc s "/") as (l & x & Hsplit). rewrite Hsplit, last_snoc. f_equal.
  pose proof (split_fuel_join (S (String.length s)) s "/") as Hjoin.
  pose proof (split_fuel_pieces (S (String.length s)) s "/") as Hpieces.
  fold (split s "/") in Hjoin, Hpieces. rewrite Hsplit in Hjoin, Hpieces.
  apply Forall_app in Hpieces as [_ Hx%Forall_inv]; [|done|lia].
  destruct l as [|y l].
  - exfalso. simpl in Hjoin. subst x. apply not_true_iff_false in Hx. apply Hx.
    unfold s. apply includes_app_l, includes_app_r, includes_refl.
  - rewrite join_snoc in Hjoin by done. unfold s in Hjoin.
    by apply (last_segment_unique "/" (join "/" (y :: l)) base x page).
Qed.

(** C24: the current page is the text after the last [/] of the URL. *)
Theorem currentPageUrl_last (base page : string) :
  includes page "/" = false ->
  currentPageUrl (base +:+ "/" +:+ page) = Some page.
Proof. apply last_segment. Qed.

(** C25: on every URL that ends in [/], such as a site root, the current
    page is the empty string, so no navigation target of the command table
    (all non-empty) is ever the current page there: "go to home page"
    announces "Opening index page." and reloads the page it is on. *)
Theorem site_root_not_current (base pageUrl : string) :
  pageUrl <> "" ->
  currentPageUrl (base +:+ "/") = Some "" /\ isCurrentPage (base +:+ "/") pageUrl = false.
Proof.
  intros Hne.
  assert (currentPageUrl (base +:+ "/") = Some "") as Hcur.
  { rewrite <- (string_app_nil_r "/"), string_app_assoc, <- string_app_assoc.
    by apply last_segment. }
  split; [done|]. unfold isCurrentPage. rewrite Hcur. apply bool_decide_eq_false.
  congruence.
Qed.

(** ** Witnesses *)

Lemma currentPageUrl_last_witness :
  currentPageUrl ("https://example.org/site" +:+ "/" +:+ "Blog.html") = Some "Blog.html".
Proof. apply currentPageUrl_last. vm_compute. reflexivity. Defined.

Lemma site_root_not_current_witness :
  "index.html" <> "" /\
  currentPageUrl ("https://example.org" +:+ "/") = Some "" /\
  isCurrentPage ("https://example.org" +:+ "/") "index.html" = false.
Proof.
  split; [discriminate|]. apply site_root_not_current. discriminate.
Defined.

End Navigation.
