(* ===== verification/Engines.v ===== *)
(** * Engines: the speech recogniser the assistant drives

    The script creates one [SpeechRecognition] object with
    [continuous = false] and [interimResults = false] (lines 22-26). It
    calls [start] and [stop] on it and handles its [result] and [end]
    events. The class [Recognizer] is the surface the assistant uses.
    [RecognizerLaws] is what the assistant's theorems assume of it.
    [WebRec] is the Web Speech API's behaviour in single-utterance mode:
    [start] on a recogniser that has not ended yet throws
    [InvalidStateError], [stop] closes the microphone but may still
    deliver a final result from the audio already heard ([RecFlushing]),
    a final result ends the session, and [end] fires once the session is
    over. The speech
    synthesiser is a FIFO queue of utterances. It is kept as a list in
    [Assistant].

    The [result] event is a list of results, each a list of
    alternatives, with the index of the first new result. [transcriptOf]
    translates the read of line 70, which throws a [TypeError] when the
    index is past the results or the result has no alternative.
    [WebSpeech.delivered] says which events an engine with the settings
    [RecConfig] of lines 25-26 sends, and [single_final_readable] shows
    that line 70 never throws on the events sent with the script's
    settings.

    Apart from [transcriptOf] and [RecConfig], this file models the
    spec's external collaborator (spec section 6), not code of the
    repository. *)

From stdpp Require Import base list strings.
From S2P Require Import Prelude.

Local Open Scope va_scope.

(** ** Interface *)

Class Recognizer (R : Type) := {
  rec_init : R;
  (** [recognition.start()]: [None] when it throws. *)
  rec_start : R -> option R;
  (** [recognition.stop()]. *)
  rec_stop : R -> R;
  (** The engine delivers a final result: [None] when it cannot. *)
  rec_result : R -> option R;
  (** The engine fires [end]: [None] when it cannot. *)
  rec_end : R -> option R;
  (** The microphone is open and speech is being transcribed. *)
  rec_capturing : R -> bool;
  (** [stop()] was called during capture: the microphone is closed, but
      the engine may still deliver a final result from the audio it has. *)
  rec_pending : R -> bool
}.

Class RecognizerLaws (R : Type) `{!Recognizer R} := {
  rec_init_idle : rec_capturing rec_init = false;
  rec_init_settled : rec_pending rec_init = false;
  rec_start_capturing r r' : rec_start r = Some r' -> rec_capturing r' = true;
  rec_start_settled r r' : rec_start r = Some r' -> rec_pending r' = false;
  rec_start_busy r : rec_capturing r = true -> rec_start r = None;
  rec_start_unfinished r : rec_pending r = true -> rec_start r = None;
  rec_stop_quiet r : rec_capturing (rec_stop r) = false;
  rec_stop_flushes r : rec_capturing r = true -> rec_pending (rec_stop r) = true;
  rec_stop_noop r : rec_capturing r = false -> rec_stop r = r;
  rec_result_from r r' : rec_result r = Some r' -> rec_capturing r = true \/ rec_pending r = true;
  rec_result_quiet r r' : rec_result r = Some r' -> rec_capturing r' = false;
  rec_result_settled r r' : rec_result r = Some r' -> rec_pending r' = false;
  rec_end_quiet r r' : rec_end r = Some r' -> rec_capturing r' = false;
  rec_end_settled r r' : rec_end r = Some r' -> rec_pending r' = false;
  rec_result_ends r r' : rec_result r = Some r' -> is_Some (rec_end r');
  rec_end_restartable r r' : rec_end r = Some r' -> is_Some (rec_start r')
}.

(** ** Result events

    The [result] event of the Web Speech API: a list of results, each a
    list of alternatives ordered by confidence, and the index of the first
    result that changed. *)

Record SpeechRecognitionAlternative := mkAlternative { transcript : string }.

Record SpeechRecognitionResult := mkResult {
  isFinal : bool;
  alternatives : list SpeechRecognitionAlternative
}.

Record SpeechRecognitionEvent := mkEvent {
  resultIndex : nat;
  results : list SpeechRecognitionResult
}.

(** The recognition settings of lines 25-26. *)
Record RecConfig := mkRecConfig { continuous : bool; interimResults : bool }.

(** The expression [event.results[event.resultIndex][0].transcript] of
    line 70. Indexing past the end of a list gives [undefined], and reading
    a property of [undefined] throws. *)
Definition transcriptOf (event : SpeechRecognitionEvent) : js_result string :=
  result <- js_deref (results event !! resultIndex event) "0";;
  alternative <- js_deref (alternatives result !! 0) "transcript";;
  JsOk (transcript alternative).

(** ** The Web Speech recogniser *)

Module WebSpeech.

Inductive RecState :=
  | RecIdle        (** not started, or ended *)
  | RecCapturing   (** started, listening for one utterance *)
  | RecFlushing    (** stopped while capturing: a final result may still come *)
  | RecStopping.   (** result delivered, or stopped with nothing heard; [end] pending *)

#[export] Instance RecState_eq_dec : EqDecision RecState.
Proof. solve_decision. Defined.

Definition web_start (r : RecState) : option RecState :=
  match r with
  | RecIdle => Some RecCapturing
  | _ => None
  end.

Definition web_stop (r : RecState) : RecState :=
  match r with
  | RecCapturing => RecFlushing
  | r => r
  end.

Definition web_result (r : RecState) : option RecState :=
  match r with
  | RecCapturing | RecFlushing => Some RecStopping
  | _ => None
  end.

Definition web_end (r : RecState) : option RecState :=
  match r with
  | RecIdle => None
  | _ => Some RecIdle
  end.

Definition web_capturing (r : RecState) : bool :=
  match r with
  | RecCapturing => true
  | _ => false
  end.

Definition web_pending (r : RecState) : bool :=
  match r with
  | RecFlushing => true
  | _ => false
  end.

#[export] Instance WebRec : Recognizer RecState := {
  rec_init := RecIdle;
  rec_start := web_start;
  rec_stop := web_stop;
  rec_result := web_result;
  rec_end := web_end;
  rec_capturing := web_capturing;
  rec_pending := web_pending
}.

#[export] Instance WebRec_laws : RecognizerLaws RecState.
Proof.
  split; intros; repeat match goal with r : RecState |- _ => destruct r end;
    simpl in *; try congruence; eauto.
Qed.

(** The result events an engine with settings [cfg] delivers: the index
    points into the results, every result has an alternative
    ([maxAlternatives] is at least 1), without [interimResults] every
    result is final, and without [continuous] a session has one result. *)
Definition delivered (cfg : RecConfig) (event : SpeechRecognitionEvent) : bool :=
  bool_decide (resultIndex event < length (results event)) &&
  forallb (fun r => negb (is_nil (alternatives r)) && (interimResults cfg || isFinal r))
    (results event) &&
  (continuous cfg || bool_decide (length (results event) = 1)).

(** The event delivered for one final utterance [t]. *)
Definition heard (t : string) : SpeechRecognitionEvent :=
  mkEvent 0 [mkResult true [mkAlternative t]].

End WebSpeech.

(** ** Reading the transcript of a result event *)

Lemma delivered_readable cfg (ev : SpeechRecognitionEvent) :
  WebSpeech.delivered cfg ev = true ->
  exists r a alts, results ev !! resultIndex ev = Some r /\ alternatives r = a :: alts /\
    transcriptOf ev = JsOk (transcript a).
Proof.
  destruct ev as [i rs]. unfold WebSpeech.delivered, transcriptOf; simpl.
  intros H. bool_hyps.
  match goal with Hi : i < length rs |- _ => destruct (lookup_lt_is_Some_2 rs i Hi) as [r Hr] end.
  assert (In r rs) as Hin by (apply list_elem_of_In; by eapply list_elem_of_lookup_2).
  match goal with Hall : forallb _ rs = true |- _ =>
    pose proof (proj1 (forallb_forall _ _) Hall r Hin) as Hrok end.
  simpl in Hrok. bool_hyps. destruct (alternatives r) as [|a alts] eqn:Ha; [by simplify_eq/=|].
  exists r, a, alts. by rewrite Hr; simpl; rewrite Ha.
Qed.

(** With [continuous] and [interimResults] off, a delivered event holds
    one final result, and line 70 reads its first alternative. *)
Lemma single_final_readable (ev : SpeechRecognitionEvent) :
  WebSpeech.delivered (mkRecConfig false false) ev = true ->
  exists r a alts, results ev = [r] /\ resultIndex ev = 0 /\ isFinal r = true /\
    alternatives r = a :: alts /\ transcriptOf ev = JsOk (transcript a).
Proof.
  intros H. destruct (delivered_readable _ _ H) as (r & a & alts & Hr & Ha & Ht).
  destruct ev as [i rs]. unfold WebSpeech.delivered in H; simpl in *. bool_hyps.
  destruct rs as [|r' [|]]; simpl in *; try lia.
  assert (i = 0) as -> by lia. simpl in Hr. injection Hr as <-. bool_hyps.
  exists r', a, alts. by repeat split.
Qed.
