(* ===== verification/Assistant.v ===== *)
(** * Assistant: the assistant state machine of the script

    The state [AState] holds the script's three flags ([isListening],
    [hasWished], [isSpeaking]) and the chat popup's classes and border
    ([ui]). It also holds the recogniser and the synthesiser queue
    ([recognition], [synth]), the page URL ([href]), whether the page has
    navigated away ([unloaded]), and the observable effects in order
    ([log]). Every handler of the script is one definition, composed as the
    code composes them.

    An [await speak(...)] suspends its caller until the synthesiser
    finishes the utterance. The rest of the caller is a continuation
    ([Cont]) stored with the queued utterance. [onUtteranceEnd] runs it
    when the synthesiser reports the end. The microtasks between the end
    of an utterance and the end of its continuation run before any other
    event, so a continuation runs atomically with the end event.

    An utterance is the [SpeechSynthesisUtterance] object that [speak]
    builds (lines 31-35), with its text and settings. [onresult] takes the
    whole [result] event: when line 70 cannot read a transcript, the
    handler throws, the rest of its body is skipped and its promise is
    rejected ([EReject]).

    [step] takes one event from the environment: a click on the icon, a
    recognition result event, a recognition [end], or the end of the
    utterance at the head of the synthesiser queue. [reachable] is the set of
    states reachable from page load. [reachable_polite] is the same set
    for schedules in which the user does not click while [pageSwitcher]'s
    announcement is pending.

    The recogniser is any [Recognizer] that satisfies [RecognizerLaws]. A
    result may arrive while it captures, or after a [stop()] during
    capture ([rec_pending]).

    ** Invariants and properties

    Three invariants of [Assistant.step]:
    - [inv_wish] holds in every reachable state. Before the first greeting
      ends, the assistant is either untouched or greeting; after it, the
      greeting has been spoken exactly once. Capture is active only while
      [isListening] holds, and no result is pending before the greeting
      has ended.
    - [inv_nav] holds in every reachable state. A queued navigation
      announcement names its target, and that target is not the current
      page. Once the page navigates, the log ends with the announcement's
      end, the [console.log] of [speak]'s [onend], and the navigation.
    - [inv_polite] holds in the states reachable by polite schedules. At
      most one utterance is queued and [isSpeaking] tells whether one is.
      Capture and speech never overlap, and no [stop()] ever leaves a
      result pending. The popup is open exactly while the assistant
      listens.
    Each invariant is proved one event at a time: a click, a result, a
    recognition [end], the end of an utterance. The proof splits the state
    into its fields and cases on the branch points of the handlers. The
    closing tactics use only the recogniser laws.

    The departures from the spec (both flags during the greeting, a click
    during an announcement, the toggle at the end of a reply, a result
    acted on after [stop()], a click
    before the recogniser has ended) are theorems over every state of
    their kind. The last part runs the model with the Web Speech
    recogniser on concrete schedules, the witnesses that those states
    occur. *)

From stdpp Require Import base list strings.
From Stdlib Require Import ZArith Lia.
From S2P Require Import Prelude JsString Command Navigation Engines.

Module Assistant.
Import JsString Command Navigation.
Local Open Scope va_scope.

(** ** Data *)

(** What remains of the [await]ing caller when an utterance ends. *)
Inductive Cont :=
  | KWish                     (** [startListening] after [await wishMe()] *)
  | KCommand                  (** [takeCommand] after [await speak(...)] *)
  | KAlready                  (** [pageSwitcher]'s [.then] on the same page *)
  | KOpen (pageUrl : string). (** [pageSwitcher]'s [.then] before navigating *)

(** [new SpeechSynthesisUtterance(text)]. The script sets only whole
    numbers, so [rate], [pitch] and [volume] are integers. *)
Record SpeechSynthesisUtterance := mkSSU {
  text : string;
  rate : Z;
  pitch : Z;
  volume : Z;
  lang : string
}.

(** An utterance handed to the synthesiser, with the continuation that its
    [onend] resolves. *)
Record Utterance := mkUtt { utt_speech : SpeechSynthesisUtterance; utt_then : Cont }.

(** Observable effects, in the order they happen. *)
Inductive Effect :=
  | ESpeak (utterance : SpeechSynthesisUtterance) (** [speechSynthesis.speak] *)
  | ESpoken (text : string)      (** the utterance finished *)
  | ERecStart                    (** [recognition.start()] succeeded *)
  | ERecStartError               (** [recognition.start()] threw *)
  | ERecStop                     (** [recognition.stop()] *)
  | ENavigate (pageUrl : string) (** [window.location.href = pageUrl] *)
  | ELog (msg : string)          (** [console.log] *)
  | EReject (error : string).    (** an [async] handler threw: its promise is rejected *)

Inductive Border := BorderUnset | BorderGreen | BorderRed.

(** The popup's [show] class, the main container's [blurred] class and the
    icon's border. *)
Record Ui := mkUi { show : bool; blurred : bool; border : Border }.

Inductive AEvent :=
  | Click (hrs : Z)              (** click on the icon; [getHours()] then *)
  | RecResult (event : SpeechRecognitionEvent)
  | RecEnd
  | SpeechEnd.

Section Assistant.
Context {R : Type} `{!Recognizer R}.

Record AState := mkA {
  isListening : bool;
  hasWished : bool;
  isSpeaking : bool;
  ui : Ui;
  recognition : R;
  synth : list Utterance;
  href : string;
  unloaded : bool;
  log : list Effect
}.

(** ** Field updates *)

Definition set_listening (b : bool) (st : AState) : AState :=
  let 'mkA _ w sp u r q h un lg := st in mkA b w sp u r q h un lg.
Definition set_wished (b : bool) (st : AState) : AState :=
  let 'mkA l _ sp u r q h un lg := st in mkA l b sp u r q h un lg.
Definition set_speaking (b : bool) (st : AState) : AState :=
  let 'mkA l w _ u r q h un lg := st in mkA l w b u r q h un lg.
Definition set_ui (u : Ui) (st : AState) : AState :=
  let 'mkA l w sp _ r q h un lg := st in mkA l w sp u r q h un lg.
Definition set_recognition (r : R) (st : AState) : AState :=
  let 'mkA l w sp u _ q h un lg := st in mkA l w sp u r q h un lg.
Definition set_synth (q : list Utterance) (st : AState) : AState :=
  let 'mkA l w sp u r _ h un lg := st in mkA l w sp u r q h un lg.
Definition set_unloaded (b : bool) (st : AState) : AState :=
  let 'mkA l w sp u r q h _ lg := st in mkA l w sp u r q h b lg.
Definition emit (e : Effect) (st : AState) : AState :=
  let 'mkA l w sp u r q h un lg := st in mkA l w sp u r q h un (lg ++ [e]).

Definition console_log (msg : string) : AState -> AState := emit (ELog msg).

Definition when (b : AState -> bool) (f : AState -> AState) (st : AState) : AState :=
  if b st then f st else st.

Definition enqueue (u : Utterance) (st : AState) : AState := set_synth (synth st ++ [u]) st.

(** ** Handlers *)

(** [recognition.start()] and the statements after it, which are skipped
    when it throws. *)
Definition recStartThen (rest : AState -> AState) (st : AState) : AState :=
  match rec_start (recognition st) with
  | Some r => st |> set_recognition r |> emit ERecStart |> rest
  | None => st |> emit ERecStartError
  end.

Definition recStart : AState -> AState := recStartThen id.

Definition recStop (st : AState) : AState :=
  st |> set_recognition (rec_stop (recognition st)) |> emit ERecStop.

(** Lines 31-35 of [speak]. *)
Definition newUtterance (text : string) : SpeechSynthesisUtterance :=
  {| text := text; rate := 1; pitch := 1; volume := 1; lang := "en" |}.

(** [speak(text)] (lines 29-49), up to the pending promise; the caller's
    continuation [k] runs when the utterance ends. *)
Definition speak (text : string) (k : Cont) (st : AState) : AState :=
  let text_speak := newUtterance text in
  st |> when isListening recStop
     |> set_speaking true
     |> enqueue (mkUtt text_speak k)
     |> emit (ESpeak text_speak).

(** [wishMe()] (lines 52-66), called from [startListening]. *)
Definition wishMe (hrs : Z) : AState -> AState := speak (greetingText hrs) KWish.

(** [toggleChat()] (lines 85-95). *)
Definition toggle_ui (u : Ui) : Ui :=
  let s := negb (show u) in
  mkUi s (negb (blurred u)) (if s then BorderGreen else BorderRed).

Definition toggleChat (st : AState) : AState := set_ui (toggle_ui (ui st)) st.

(** Lines 111-112 of [startListening]. *)
Definition listeningStarted : AState -> AState :=
  recStartThen (console_log "Assistant is now listening...").

(** [startListening()] (lines 103-114). *)
Definition startListening (hrs : Z) (st : AState) : AState :=
  if isListening st then st
  else
    let st := st |> set_listening true |> toggleChat in
    if hasWished st then listeningStarted st else wishMe hrs st.

(** [stopListening()] (lines 117-121). *)
Definition stopListening (st : AState) : AState :=
  st |> set_listening false |> recStop |> console_log "Assistant stopped listening.".

(** [pageSwitcher(pageUrl)] (lines 195-208), up to its pending promise. *)
Definition pageSwitcher (pageUrl : string) (st : AState) : AState :=
  if isCurrentPage (href st) pageUrl then speak alreadyText KAlready st
  else speak (openingText pageUrl) (KOpen pageUrl) st.

(** Lines 154-155 of [takeCommand]. *)
Definition closeAfterCommand (st : AState) : AState :=
  st |> stopListening |> toggleChat.

(** [takeCommand(message)] (lines 124-156). The navigation branches call
    [pageSwitcher] without awaiting it and go straight on to lines
    154-155. *)
Definition takeCommand (message : string) (st : AState) : AState :=
  let lowerCaseMessage := toLowerCase message in
  let st := console_log ("Heard: " +:+ lowerCaseMessage) st in
  match interpret lowerCaseMessage with
  | NavigateTo pageUrl => st |> pageSwitcher pageUrl |> closeAfterCommand
  | i =>
      match reply i with
      | Some text => speak text KCommand st
      | None => st
      end
  end.

(** Lines 109-112 of [startListening], after [await wishMe()]. *)
Definition afterWish (st : AState) : AState :=
  st |> set_wished true |> listeningStarted.

(** The [.then] callback of line 200, on the current page. *)
Definition afterAlready : AState -> AState :=
  when (fun st => isListening st && negb (isSpeaking st)) recStart.

(** The [.then] callback of line 204: the page unloads. *)
Definition afterOpening (pageUrl : string) (st : AState) : AState :=
  st |> emit (ENavigate pageUrl) |> set_unloaded true.

(** [resolve()] (line 44): the awaiting caller goes on with the
    continuation stored with the utterance. After [await speak(...)] in
    [takeCommand] that is lines 154-155, [closeAfterCommand]. *)
Definition resume (k : Cont) : AState -> AState :=
  match k with
  | KWish => afterWish
  | KCommand => closeAfterCommand
  | KAlready => afterAlready
  | KOpen pageUrl => afterOpening pageUrl
  end.

(** [text_speak.onend] (lines 41-45) and the caller's continuation. *)
Definition onUtteranceEnd (u : Utterance) (st : AState) : AState :=
  st |> emit (ESpoken (text (utt_speech u)))
     |> console_log "Finished speaking."
     |> set_speaking false
     |> resume (utt_then u).

(** [recognition.onresult] (lines 69-74). When line 70 throws, the rest
    of the body is skipped and the handler's promise is rejected. *)
Definition onresult (event : SpeechRecognitionEvent) (st : AState) : AState :=
  match transcriptOf event with
  | JsOk t =>
      let transcript := trim t in
      st |> console_log ("Heard: " +:+ transcript) |> takeCommand transcript
  | JsThrow e => st |> emit (EReject e)
  end.

(** [recognition.onend] (lines 77-82). *)
Definition onend (st : AState) : AState :=
  when (fun st => isListening st && negb (isSpeaking st))
    (fun st => st |> console_log "Restarting recognition..." |> recStart) st.

(** The state at page load (lines 12-26). *)
Definition init (href : string) : AState :=
  mkA false false false (mkUi false false BorderUnset) rec_init [] href false [].

(** ** Events *)

Definition step (ev : AEvent) (st : AState) : option AState :=
  if unloaded st then None
  else
    match ev with
    | Click hrs => Some (startListening hrs st)
    | RecResult event =>
        match rec_result (recognition st) with
        | Some r => Some (st |> set_recognition r |> onresult event)
        | None => None
        end
    | RecEnd =>
        match rec_end (recognition st) with
        | Some r => Some (st |> set_recognition r |> onend)
        | None => None
        end
    | SpeechEnd =>
        match synth st with
        | [] => None
        | u :: q => Some (st |> set_synth q |> onUtteranceEnd u)
        end
    end.

Fixpoint run (evs : list AEvent) (st : AState) : option AState :=
  match evs with
  | [] => Some st
  | ev :: evs => match step ev st with Some st' => run evs st' | None => None end
  end.

Inductive reachable : AState -> Prop :=
  | reachable_init h : reachable (init h)
  | reachable_step ev st st' : reachable st -> step ev st = Some st' -> reachable st'.

(** No click while [pageSwitcher]'s announcement is pending: a click is
    delivered only when the assistant is listening (where it does
    nothing) or when the synthesiser is silent. *)
Definition polite (ev : AEvent) (st : AState) : bool :=
  match ev with
  | Click _ => isListening st || is_nil (synth st)
  | _ => true
  end.

Inductive reachable_polite : AState -> Prop :=
  | polite_init h : reachable_polite (init h)
  | polite_step ev st st' :
      reachable_polite st -> polite ev st = true -> step ev st = Some st' ->
      reachable_polite st'.

End Assistant.


Section Definitions.
Context {R : Type} `{!Recognizer R}.

(** ** Definitions *)

(** The continuations whose caller is still listening when they were queued. *)
Definition cont_listening (k : Cont) : bool :=
  match k with KWish | KCommand => true | _ => false end.

Definition inv_polite (st : @AState R) : Prop :=
  length (synth st) <= 1 /\
  isSpeaking st = negb (is_nil (synth st)) /\
  (rec_capturing (recognition st) = true -> synth st = [] /\ isListening st = true) /\
  show (ui st) = isListening st /\ blurred (ui st) = isListening st /\
  Forall (fun u => cont_listening (utt_then u) = isListening st) (synth st) /\
  rec_pending (recognition st) = false.

Definition is_greeting (t : string) : bool :=
  String.eqb t morningText || String.eqb t afternoonText || String.eqb t eveningText.

Definition greeting_effect (e : Effect) : bool :=
  match e with ESpeak u => is_greeting (text u) | _ => false end.

(** Number of greetings handed to the synthesiser. *)
Definition greetings (st : @AState R) : nat := count_if greeting_effect (log st).

Definition inv_wish (st : @AState R) : Prop :=
  (rec_capturing (recognition st) = true -> isListening st = true) /\
  if hasWished st then greetings st = 1 /\ Forall (fun u => utt_then u <> KWish) (synth st)
  else (isListening st = false /\ synth st = [] /\ greetings st = 0 /\
        rec_capturing (recognition st) = false /\ rec_pending (recognition st) = false)
    \/ (isListening st = true /\ isSpeaking st = true /\ greetings st = 1 /\
        rec_capturing (recognition st) = false /\ rec_pending (recognition st) = false /\
        exists t, synth st = [mkUtt t KWish]).

Definition nav_ok (h : string) (u : Utterance) : Prop :=
  match utt_then u with
  | KOpen url => text (utt_speech u) = openingText url /\ isCurrentPage h url = false
  | _ => True
  end.

Definition no_navigate (lg : list Effect) : Prop := forall url, ~ In (ENavigate url) lg.

Definition inv_nav (st : @AState R) : Prop :=
  Forall (nav_ok (href st)) (synth st) /\
  if unloaded st then
    exists url pre, no_navigate pre /\ isCurrentPage (href st) url = false /\
      log st = pre ++ [ESpoken (openingText url); ELog "Finished speaking."; ENavigate url]
  else no_navigate (log st).

(** The [console.log] of [stopListening]. *)
Definition stop_effect (e : Effect) : bool :=
  match e with ELog m => String.eqb m "Assistant stopped listening." | _ => false end.

Definition stops (st : @AState R) : nat := count_if stop_effect (log st).

(** A run that delivers only polite events. *)
Fixpoint run_polite (evs : list AEvent) (st : @AState R) : option (@AState R) :=
  match evs with
  | [] => Some st
  | ev :: evs =>
      if polite ev st then
        match step ev st with Some st' => run_polite evs st' | None => None end
      else None
  end.

(** ** The spec's session machine (spec sections 4.1 and 4.3)

    The phases of the spec's [AssistantSession]: [Idle], [Greeting],
    [Listening] and [Speaking], plus the announcement of the navigation
    effector ([PAnnouncing stay], where [stay] says whether the target is
    the current page) and the end of the page's lifetime ([PGone]). *)
Inductive Phase := PIdle | PGreeting | PListening | PSpeaking | PAnnouncing (stay : bool) | PGone.

Record Session := mkSession { s_phase : Phase; s_greeted : bool }.

Inductive SpecEvent :=
  | Activate              (** [activate()] *)
  | Heard (i : Intent)    (** capture completed with the transcript's intent *)
  | CaptureEnd            (** capture ended without a result *)
  | OutputDone.           (** the pending output finished *)

(** The transitions the spec allows, on the page [h]. *)
Inductive spec_step (h : string) : SpecEvent -> Session -> Session -> Prop :=
  | spec_activate_first : spec_step h Activate (mkSession PIdle false) (mkSession PGreeting false)
  | spec_activate_again : spec_step h Activate (mkSession PIdle true) (mkSession PListening true)
  | spec_activate_busy p g :
      p = PGreeting \/ p = PListening \/ p = PSpeaking ->
      spec_step h Activate (mkSession p g) (mkSession p g)
  | spec_greeted : spec_step h OutputDone (mkSession PGreeting false) (mkSession PListening true)
  | spec_reply i g :
      (forall url, i <> NavigateTo url) ->
      spec_step h (Heard i) (mkSession PListening g) (mkSession PSpeaking g)
  | spec_navigate url g :
      spec_step h (Heard (NavigateTo url)) (mkSession PListening g)
        (mkSession (PAnnouncing (isCurrentPage h url)) g)
  | spec_replied g : spec_step h OutputDone (mkSession PSpeaking g) (mkSession PIdle g)
  | spec_stayed g : spec_step h OutputDone (mkSession (PAnnouncing true) g) (mkSession PIdle g)
  | spec_left g : spec_step h OutputDone (mkSession (PAnnouncing false) g) (mkSession PGone g)
  | spec_rearm p g : p <> PGone -> spec_step h CaptureEnd (mkSession p g) (mkSession p g).

(** The phase a state of the script is in: read off the pending utterance's
    continuation, and otherwise off [isListening]. *)
Definition phase_of (st : @AState R) : Phase :=
  if unloaded st then PGone
  else
    match synth st with
    | u :: _ =>
        match utt_then u with
        | KWish => PGreeting
        | KCommand => PSpeaking
        | KAlready => PAnnouncing true
        | KOpen _ => PAnnouncing false
        end
    | [] => if isListening st then PListening else PIdle
    end.

Definition abstract (st : @AState R) : Session := mkSession (phase_of st) (hasWished st).

Definition spec_event (ev : AEvent) : SpecEvent :=
  match ev with
  | Click _ => Activate
  | RecResult event =>
      match transcriptOf event with
      | JsOk t => Heard (command_of_transcript t)
      | JsThrow _ => CaptureEnd
      end
  | RecEnd => CaptureEnd
  | SpeechEnd => OutputDone
  end.

(** A run of the spec's machine along a list of events. *)
Inductive spec_run (h : string) : list SpecEvent -> Session -> Session -> Prop :=
  | spec_run_nil s : spec_run h [] s s
  | spec_run_cons e es s1 s2 s3 :
      spec_step h e s1 s2 -> spec_run h es s2 s3 -> spec_run h (e :: es) s1 s3.

(** The event ends the greeting: the end of an utterance whose continuation
    is [startListening]'s after [await wishMe()]. *)
Definition ends_greeting (ev : AEvent) (st : @AState R) : bool :=
  match ev, synth st with
  | SpeechEnd, u :: _ => match utt_then u with KWish => true | _ => false end
  | _, _ => false
  end.

(** The utterance is [pageSwitcher]'s announcement. *)
Definition announcing (k : Cont) : bool :=
  match k with KAlready | KOpen _ => true | _ => false end.

End Definitions.

(** ** Concrete schedules with the Web Speech recogniser *)

Import WebSpeech.

Definition page : string := "https://example.org/site/contact.html".

(** The state after [evs] from page load, when every event can be delivered. *)
Definition after (evs : list AEvent) : @AState WebSpeech.RecState :=
  from_option id (init page) (run evs (init page)).

(** The same for a polite schedule. *)
Definition after_polite (evs : list AEvent) : @AState WebSpeech.RecState :=
  from_option id (init page) (run_polite evs (init page)).

(** The schedules of the witnesses and of the concrete findings. *)

Definition evs_greeting : list AEvent := [Click 9].
Definition evs_listening : list AEvent := [Click 9; SpeechEnd].
Definition evs_blog : list AEvent := [Click 9; SpeechEnd; RecResult (heard "go to blog page"); SpeechEnd].

(** A click while [pageSwitcher]'s announcement is pending. *)
Definition evs_race : list AEvent :=
  [Click 9; SpeechEnd; RecResult (heard "go to contact page"); RecEnd; Click 10].

(** The same race, continued until the popup is stranded. *)
Definition evs_stranded : list AEvent :=
  evs_race ++ [RecResult (heard "hello"); RecEnd; SpeechEnd; RecResult (heard "hello"); SpeechEnd; SpeechEnd].

(** A full session: greeting, a reply, a second activation, a navigation. *)
Definition evs_session : list AEvent :=
  [Click 9; SpeechEnd; RecResult (heard "hello"); RecEnd; SpeechEnd; Click 14; RecResult (heard "go to blog page");
   RecEnd; SpeechEnd].

(** A polite click before the recogniser's [end] of the previous session. *)
Definition evs_early_click : list AEvent :=
  [Click 9; SpeechEnd; RecResult (heard "go to contact page"); SpeechEnd; Click 10].

(** After the race, a second command; the announcement's end restarts
    capture, and the reply's end stops it while it is capturing. *)
Definition evs_late_result : list AEvent :=
  evs_race ++ [RecResult (heard "hello"); RecEnd; SpeechEnd; SpeechEnd].

(** A result event whose index points past its results. *)
Definition unreadable_event : SpeechRecognitionEvent := mkEvent 1 [].

(** That event while listening. *)
Definition evs_unreadable : list AEvent := evs_listening ++ [RecResult unreadable_event].

Section Invariants.
Context {R : Type} `{RL : RecognizerLaws R}.

(** ** Tactics *)

Ltac unfold_handlers :=
  unfold step, startListening, listeningStarted, wishMe, speak, stopListening, closeAfterCommand,
    takeCommand, pageSwitcher, resume, afterWish, afterAlready, afterOpening, onUtteranceEnd, onresult, onend, recStart, recStartThen,
    newUtterance,
    recStop, toggleChat, toggle_ui, when, enqueue, console_log, emit, set_listening, set_wished,
    set_speaking, set_ui, set_recognition, set_synth, set_unloaded, polite, inv_polite in *.

(** What the recogniser laws say of the recogniser after each call. A
    [stop()] on a recogniser that is not capturing does nothing. *)
Ltac rec_facts :=
  repeat match goal with
  | H : rec_start _ = Some _ |- _ =>
      pose proof (rec_start_capturing _ _ H); pose proof (rec_start_settled _ _ H); clear H
  | H : rec_end _ = Some _ |- _ =>
      pose proof (rec_end_quiet _ _ H); pose proof (rec_end_settled _ _ H); clear H
  | H : rec_result _ = Some _ |- _ =>
      pose proof (rec_result_quiet _ _ H); pose proof (rec_result_settled _ _ H); clear H
  | H : rec_capturing ?r = false |- context [rec_stop ?r] => rewrite (rec_stop_noop r H)
  end;
  rewrite ?rec_stop_quiet in *.

Ltac inv_solve :=
  repeat match goal with
  | H : _ /\ _ |- _ => destruct H
  | H : is_nil _ = true |- _ => apply is_nil_true in H
  | H : Some _ = Some _ |- _ => injection H as H
  | H : Forall _ (_ :: _) |- _ => apply Forall_cons in H as [? ?]
  end; subst; simpl in *;
  rec_facts;
  repeat match goal with
  | H : rec_capturing ?r = true -> _ |- context [rec_stop ?r] =>
      let E := fresh "Ec" in
      destruct (rec_capturing r) eqn:E;
        [first [specialize (H E) | specialize (H eq_refl)] | rewrite (rec_stop_noop r E)]
  end;
  repeat match goal with H : _ /\ _ |- _ => destruct H end;
  repeat split; try lia; try done; try congruence; try (econstructor; [reflexivity|econstructor]); try econstructor; try tauto.

(** Unfold the handlers and case on every test and call whose outcome the
    state does not fix. *)
Ltac handler_cases :=
  do 3 unfold_handlers; simpl in *;
  repeat (match goal with
          | |- context [rec_start ?r] => destruct (rec_start r)
          | |- context [transcriptOf ?e] => destruct (transcriptOf e)
          | |- context [interpret ?m] => destruct (interpret m)
          | |- context [isCurrentPage ?h ?u] => destruct (isCurrentPage h u)
          | |- context [if ?b then _ else _] => destruct b
          | k : Cont |- _ => destruct k
          end; simpl in *).

(** Take a step [Hs : step ev st = Some st'] on a state split into its
    fields: case on the event, drop the steps that cannot happen, and
    replace [st'] by the handler's result. *)
Ltac step_cases ev Hs :=
  destruct ev as [?hrs|?event| |]; unfold step in Hs; simpl in Hs;
  repeat match type of Hs with
  | (if ?b then _ else _) = _ => destruct b; [discriminate|]
  | match rec_result ?r with _ => _ end = _ => destruct (rec_result r); [|discriminate]
  | match rec_end ?r with _ => _ end = _ => destruct (rec_end r); [|discriminate]
  | match ?q with [] => _ | _ :: _ => _ end = _ => destruct q as [|[? ?] ?]; [discriminate|]
  end;
  injection Hs as <-.

Ltac qsplit Hinv q :=
  let Hl := fresh in
  assert (length q <= 1) as Hl by apply Hinv;
  destruct q as [|? [|? ?]]; [| |simpl in Hl; lia]; clear Hl.

(** ** Polite invariant *)

(** A result comes from capture unless a [stop()] left one pending. *)
Lemma result_capturing (r r' : R) :
  rec_pending r = false -> rec_result r = Some r' -> rec_capturing r = true.
Proof. intros Hp E. destruct (rec_result_from r r' E); congruence. Qed.

Lemma click_inv_polite hrs (st : @AState R) :
  inv_polite st -> polite (Click hrs) st = true -> inv_polite (startListening hrs st).
Proof.
  intros Hinv Hp. destruct st as [l w sp [sh bl bd] r q h un lg].
  qsplit Hinv q; destruct l, w; do 3 unfold_handlers; simpl in *;
    try destruct (rec_start r) eqn:E; inv_solve.
Qed.

Lemma result_inv_polite ev r' (st : @AState R) :
  inv_polite st -> rec_result (recognition st) = Some r' ->
  inv_polite (onresult ev (set_recognition r' st)).
Proof.
  intros Hinv E. destruct st as [l w sp [sh bl bd] r q h un lg]. simpl in E.
  assert (rec_capturing r = true) as Hc
    by (eapply result_capturing; [|exact E]; unfold inv_polite in Hinv; simpl in Hinv; tauto).
  destruct Hinv as (H1 & H2 & Hcap & Hinv). simpl in Hcap. destruct (Hcap Hc) as [-> ->].
  do 3 unfold_handlers; simpl in *.
  destruct (transcriptOf ev) as [t|e]; [|inv_solve].
  destruct (interpret _) as [|url| | | | |]; simpl in *;
    [| destruct (isCurrentPage h url) | | | | |]; inv_solve.
Qed.

Lemma end_inv_polite r' (st : @AState R) :
  inv_polite st -> rec_end (recognition st) = Some r' ->
  inv_polite (onend (set_recognition r' st)).
Proof.
  intros Hinv E. destruct st as [l w sp [sh bl bd] r q h un lg]. simpl in E.
  qsplit Hinv q; destruct l, sp; do 3 unfold_handlers; simpl in *;
    try destruct (rec_start r') eqn:E2; inv_solve.
Qed.

Lemma speechend_inv_polite u q' (st : @AState R) :
  inv_polite st -> synth st = u :: q' ->
  inv_polite (onUtteranceEnd u (set_synth q' st)).
Proof.
  intros Hinv Hq. destruct st as [l w sp [sh bl bd] r q h un lg]. simpl in Hq. subst q.
  assert (q' = []) as -> by (destruct q'; [done|destruct Hinv as [Hl _]; simpl in Hl; lia]).
  destruct u as [t []]; destruct l; do 3 unfold_handlers; simpl in *;
    try destruct (rec_start r) eqn:E; inv_solve.
Qed.

Lemma step_inv_polite ev (st st' : @AState R) :
  inv_polite st -> polite ev st = true -> step ev st = Some st' -> inv_polite st'.
Proof.
  intros Hinv Hp Hstep. unfold step in Hstep. destruct (unloaded st); [discriminate|].
  destruct ev.
  - injection Hstep as <-. by apply click_inv_polite.
  - destruct (rec_result _) eqn:E; [|discriminate]. injection Hstep as <-.
    by apply result_inv_polite.
  - destruct (rec_end _) eqn:E; [|discriminate]. injection Hstep as <-.
    by apply end_inv_polite.
  - destruct (synth st) as [|u q] eqn:E; [discriminate|]. injection Hstep as <-.
    by apply speechend_inv_polite.
Qed.

(** ** Greeting and capture invariant *)

Lemma is_greeting_openingText url : is_greeting (openingText url) = false.
Proof. unfold is_greeting. by rewrite !(proj2 (String.eqb_neq _ _)). Qed.
Lemma is_greeting_greetingText hrs : is_greeting (greetingText hrs) = true.
Proof. unfold greetingText. by case_ifs. Qed.

#[local] Hint Rewrite is_greeting_openingText is_greeting_greetingText : va.

Ltac wsplit :=
  repeat match goal with
  | H : _ /\ _ |- _ => destruct H
  | H : _ \/ _ |- _ => destruct H
  | H : exists _, _ |- _ => destruct H
  | H : Some _ = Some _ |- _ => injection H as H
  | H : _ :: _ = _ :: _ |- _ => injection H as H
  | H : Forall _ (_ :: _) |- _ => apply Forall_cons in H as [? ?]
  end.

Ltac wsolve :=
  unfold inv_wish, greetings in *; wsplit; subst; simpl in *; wsplit; subst;
  rec_facts;
  autorewrite with va in *; simpl in *; autorewrite with va in *; simpl in *;
  repeat split; try lia; try tauto; try congruence;
  try (apply Forall_app; split; [done|repeat constructor; discriminate]);
  try (right; repeat split; try eexists; eauto; lia);
  try (left; repeat split; eauto; lia).

Lemma click_inv_wish hrs (st : @AState R) :
  inv_wish st -> inv_wish (startListening hrs st).
Proof.
  intros Hinv. destruct st as [l w sp [sh bl bd] r q h un lg].
  destruct l, w; do 3 unfold_handlers; simpl in *;
    try destruct (rec_start r) eqn:E; wsolve.
  all: fail.
Qed.

Lemma result_inv_wish ev r' (st : @AState R) :
  inv_wish st -> rec_result (recognition st) = Some r' ->
  inv_wish (onresult ev (set_recognition r' st)).
Proof.
  intros Hinv E. destruct st as [l w sp [sh bl bd] r q h un lg]. simpl in E.
  assert (w = true) as ->.
  { destruct Hinv as [Hcap Hw]. simpl in *. destruct w; [done|].
    destruct (rec_result_from r r' E) as [Hr|Hr];
      destruct Hw as [(_ & _ & _ & Hc & Hp)|(_ & _ & _ & Hc & Hp & _)]; congruence. }
  do 3 unfold_handlers; simpl in *.
  destruct (transcriptOf ev) as [t|e]; [|wsolve].
  destruct (interpret _) as [|url| | | | |]; simpl in *;
    [| destruct (isCurrentPage h url) | | | | |]; destruct l; wsolve.
  all: fail.
Qed.

Lemma end_inv_wish r' (st : @AState R) :
  inv_wish st -> rec_end (recognition st) = Some r' ->
  inv_wish (onend (set_recognition r' st)).
Proof.
  intros Hinv E. destruct st as [l w sp [sh bl bd] r q h un lg]. simpl in E.
  destruct l, sp, w; do 3 unfold_handlers; simpl in *;
    try destruct (rec_start r') eqn:E2; wsolve.
  all: fail.
Qed.

Lemma speechend_inv_wish u q' (st : @AState R) :
  inv_wish st -> synth st = u :: q' ->
  inv_wish (onUtteranceEnd u (set_synth q' st)).
Proof.
  intros Hinv Hq. destruct st as [l w sp [sh bl bd] r q h un lg]. simpl in Hq. subst q.
  destruct u as [t []]; destruct l, w; do 3 unfold_handlers; simpl in *;
    try destruct (rec_start r) eqn:E; wsolve.
  all: fail.
Qed.

(** ** Navigation invariant *)

Ltac nsolve :=
  unfold inv_nav, no_navigate, nav_ok in *; wsplit; subst; simpl in *; wsplit; subst;
  repeat split; try done;
  try (apply Forall_app; split; [done|repeat constructor; done]);
  try (intros ?url Hin; rewrite ?in_app_iff in Hin; simpl in Hin;
       intuition (try congruence; eauto)).

Lemma click_inv_nav hrs (st : @AState R) :
  unloaded st = false -> inv_nav st -> inv_nav (startListening hrs st).
Proof.
  intros Hu Hinv. destruct st as [l w sp [sh bl bd] r q h un lg]. simpl in Hu; subst un.
  destruct l, w; do 3 unfold_handlers; simpl in *; try destruct (rec_start r) eqn:E; nsolve.
Qed.

Lemma result_inv_nav ev r' (st : @AState R) :
  unloaded st = false -> inv_nav st -> inv_nav (onresult ev (set_recognition r' st)).
Proof.
  intros Hu Hinv. destruct st as [l w sp [sh bl bd] r q h un lg]. simpl in Hu; subst un.
  do 3 unfold_handlers; simpl in *.
  destruct (transcriptOf ev) as [t|e]; [|nsolve].
  destruct (interpret _) as [|url| | | | |]; simpl in *;
    [| destruct (isCurrentPage h url) eqn:Ecur | | | | |]; destruct l; nsolve.
Qed.

Lemma end_inv_nav r' (st : @AState R) :
  unloaded st = false -> inv_nav st -> inv_nav (onend (set_recognition r' st)).
Proof.
  intros Hu Hinv. destruct st as [l w sp [sh bl bd] r q h un lg]. simpl in Hu; subst un.
  destruct l, sp; do 3 unfold_handlers; simpl in *; try destruct (rec_start r') eqn:E2; nsolve.
Qed.

Lemma speechend_inv_nav u q' (st : @AState R) :
  unloaded st = false -> inv_nav st -> synth st = u :: q' ->
  inv_nav (onUtteranceEnd u (set_synth q' st)).
Proof.
  intros Hu Hinv Hq. destruct st as [l w sp [sh bl bd] r q h un lg]. simpl in Hu, Hq; subst un q.
  destruct u as [[t ? ? ? ?] [| | |url]].
  4: { destruct Hinv as [Hq Hlog]. simpl in Hq, Hlog.
       apply Forall_cons in Hq as [[Ht Hc] Hq]. simpl in Ht. subst t.
       unfold onUtteranceEnd, resume, afterOpening, console_log, emit, set_speaking, set_synth,
         set_unloaded, inv_nav; simpl.
       split; [done|]. exists url, lg. split; [done|]. split; [done|].
       by rewrite <- !app_assoc. }
  all: destruct l, sp; do 3 unfold_handlers; simpl in *; try destruct (rec_start r) eqn:E; nsolve.
Qed.

Lemma step_inv_wish ev (st st' : @AState R) :
  inv_wish st -> step ev st = Some st' -> inv_wish st'.
Proof.
  intros Hinv Hstep. unfold step in Hstep. destruct (unloaded st); [discriminate|].
  destruct ev.
  - injection Hstep as <-. by apply click_inv_wish.
  - destruct (rec_result _) eqn:E; [|discriminate]. injection Hstep as <-.
    by apply result_inv_wish.
  - destruct (rec_end _) eqn:E; [|discriminate]. injection Hstep as <-.
    by apply end_inv_wish.
  - destruct (synth st) as [|u q] eqn:E; [discriminate|]. injection Hstep as <-.
    by apply speechend_inv_wish.
Qed.

Lemma step_inv_nav ev (st st' : @AState R) :
  inv_nav st -> step ev st = Some st' -> inv_nav st'.
Proof.
  intros Hinv Hstep. unfold step in Hstep. destruct (unloaded st) eqn:Hu; [discriminate|].
  destruct ev.
  - injection Hstep as <-. by apply click_inv_nav.
  - destruct (rec_result _) eqn:E; [|discriminate]. injection Hstep as <-.
    by apply result_inv_nav.
  - destruct (rec_end _) eqn:E; [|discriminate]. injection Hstep as <-.
    by apply end_inv_nav.
  - destruct (synth st) as [|u q] eqn:E; [discriminate|]. injection Hstep as <-.
    by apply speechend_inv_nav.
Qed.

(** ** Reachable states *)

Lemma init_invs (h : string) : inv_wish (@init R _ h) /\ inv_nav (@init R _ h).
Proof.
  split.
  - unfold inv_wish, greetings, init; simpl. rewrite rec_init_idle, rec_init_settled.
    split; [done|]. left. by repeat split.
  - unfold inv_nav, no_navigate, init; simpl. split; [constructor|]. by intros ? [].
Qed.

Lemma reachable_invs (st : @AState R) : reachable st -> inv_wish st /\ inv_nav st.
Proof.
  induction 1 as [h|ev st st' _ [Hw Hn] Hstep]; [apply init_invs|].
  split; [by eapply step_inv_wish | by eapply step_inv_nav].
Qed.

Lemma reachable_polite_inv (st : @AState R) : reachable_polite st -> inv_polite st.
Proof.
  induction 1 as [h|ev st st' _ IH Hp Hstep]; [|by eapply step_inv_polite].
  unfold inv_polite, init; simpl. rewrite rec_init_idle, rec_init_settled.
  repeat split; try lia; try constructor; intros; discriminate.
Qed.

Lemma polite_reachable (st : @AState R) : reachable_polite st -> reachable st.
Proof. induction 1; econstructor; eauto. Qed.

Lemma run_reachable evs (st st' : @AState R) :
  reachable st -> run evs st = Some st' -> reachable st'.
Proof.
  revert st. induction evs as [|ev evs IH]; intros st Hr Hrun; simpl in Hrun.
  - by injection Hrun as <-.
  - destruct (step ev st) as [st1|] eqn:E; [|discriminate].
    apply (IH st1); [econstructor; eauto|done].
Qed.

Lemma run_polite_reachable evs (st st' : @AState R) :
  reachable_polite st -> run_polite evs st = Some st' -> reachable_polite st'.
Proof.
  revert st. induction evs as [|ev evs IH]; intros st Hr Hrun; simpl in Hrun.
  - by injection Hrun as <-.
  - destruct (polite ev st) eqn:Hp; [|discriminate].
    destruct (step ev st) as [st1|] eqn:E; [|discriminate].
    apply (IH st1); [econstructor; eauto|done].
Qed.

(** ** Properties of every schedule *)

(** ** Refinement of the spec's session machine *)

Ltac spec_solve :=
  inv_solve; unfold abstract, phase_of; simpl;
  first [ by constructor; auto | by apply spec_activate_busy; auto | by apply spec_reply; auto ].

Lemma click_refines hrs (st : @AState R) :
  inv_polite st -> inv_wish st -> polite (Click hrs) st = true -> unloaded st = false ->
  spec_step (href st) Activate (abstract st) (abstract (startListening hrs st)).
Proof.
  intros Hinv Hw Hp Hun. destruct st as [l w sp [sh bl bd] r q h un lg]; simpl in Hun; subst un.
  qsplit Hinv q; [|destruct u as [t []]]; destruct l, w; do 3 unfold_handlers; simpl in *;
    try destruct (rec_start r) eqn:E; unfold inv_wish in Hw; simpl in Hw; spec_solve.
Qed.

Lemma result_refines ev r' (st : @AState R) :
  inv_polite st -> rec_result (recognition st) = Some r' -> unloaded st = false ->
  spec_step (href st) (spec_event (RecResult ev)) (abstract st)
    (abstract (onresult ev (set_recognition r' st))).
Proof.
  intros Hinv E Hun. destruct st as [l w sp [sh bl bd] r q h un lg]. simpl in E, Hun. subst un.
  assert (rec_capturing r = true) as Hc
    by (eapply result_capturing; [|exact E]; unfold inv_polite in Hinv; simpl in Hinv; tauto).
  destruct Hinv as (H1 & H2 & Hcap & Hinv). simpl in Hcap. destruct (Hcap Hc) as [-> ->].
  unfold spec_event, command_of_transcript. do 3 unfold_handlers; simpl in *.
  destruct (transcriptOf ev) as [t|e]; [|unfold abstract, phase_of; simpl; by constructor].
  destruct (interpret _) as [|url| | | | |] eqn:Ei; simpl in *;
    [| destruct (isCurrentPage h url) eqn:Ec | | | | |]; unfold abstract, phase_of; simpl;
    first [apply spec_reply; congruence | rewrite <- Ec; apply spec_navigate].
Qed.

Lemma end_refines r' (st : @AState R) :
  unloaded st = false -> rec_end (recognition st) = Some r' ->
  spec_step (href st) CaptureEnd (abstract st) (abstract (onend (set_recognition r' st))).
Proof.
  intros Hun E. destruct st as [l w sp [sh bl bd] r q h un lg]. simpl in E, Hun. subst un.
  unfold onend, when, recStart, recStartThen, console_log, emit, set_recognition; simpl.
  destruct (l && negb sp); [destruct (rec_start r')|]; unfold abstract, phase_of; simpl;
    constructor; destruct q as [|[? []] ?], l; discriminate.
Qed.

Lemma speechend_refines u q' (st : @AState R) :
  inv_polite st -> inv_wish st -> synth st = u :: q' -> unloaded st = false ->
  spec_step (href st) OutputDone (abstract st) (abstract (onUtteranceEnd u (set_synth q' st))).
Proof.
  intros Hinv Hw Hq Hun. destruct st as [l w sp [sh bl bd] r q h un lg]. simpl in Hq, Hun.
  subst q un.
  assert (q' = []) as -> by (destruct q'; [done|destruct Hinv as [Hl _]; simpl in Hl; lia]).
  destruct u as [t []]; destruct l, w; do 3 unfold_handlers; unfold inv_wish in Hw; simpl in *;
    try destruct (rec_start r) eqn:E; spec_solve.
Qed.

(** ** Draining the synthesiser queue *)

(** The end of an utterance removes it, clears [isSpeaking], and never
    queues another one: no continuation speaks. Only [KOpen] ends the
    page. *)
Lemma onresult_fields ev (st : @AState R) :
  href (onresult ev st) = href st /\ hasWished (onresult ev st) = hasWished st.
Proof.
  destruct st as [l w sp [sh bl bd] r q h un lg]. do 3 unfold_handlers; simpl.
  destruct (transcriptOf ev) as [t|e]; [|done].
  destruct (interpret _) as [|url| | | | |]; simpl; [|destruct (isCurrentPage h url)| | | | |];
    destruct l; done.
Qed.

Lemma onUtteranceEnd_fields u (st : @AState R) :
  synth (onUtteranceEnd u st) = synth st /\ isSpeaking (onUtteranceEnd u st) = false /\
  unloaded (onUtteranceEnd u st) =
    unloaded st || match utt_then u with KOpen _ => true | _ => false end.
Proof.
  destruct st as [l w sp [sh bl bd] r q h un lg], u as [t []]; do 3 unfold_handlers; simpl;
    rewrite ?orb_false_r, ?orb_true_r; try destruct l; simpl; try destruct (rec_start r); auto.
Qed.

Lemma step_speechend u q (st : @AState R) :
  unloaded st = false -> synth st = u :: q ->
  step SpeechEnd st = Some (onUtteranceEnd u (set_synth q st)).
Proof. intros Hun Hq. unfold step. by rewrite Hun, Hq. Qed.

Lemma run_repeat_S ev k (st st1 : @AState R) :
  step ev st = Some st1 -> run (repeat ev (S k)) st = run (repeat ev k) st1.
Proof. intros Hs. simpl. by rewrite Hs. Qed.

Lemma step_href ev (st st' : @AState R) : step ev st = Some st' -> href st' = href st.
Proof.
  destruct st as [l w sp [sh bl bd] r q h un lg]. intros Hs.
  step_cases ev Hs; handler_cases; reflexivity.
Qed.

Lemma step_refines ev (st st' : @AState R) :
  reachable_polite st -> polite ev st = true -> step ev st = Some st' ->
  spec_step (href st) (spec_event ev) (abstract st) (abstract st').
Proof.
  intros Hr Hp Hs. pose proof (reachable_polite_inv st Hr) as Hinv.
  destruct (reachable_invs st (polite_reachable st Hr)) as [Hw _].
  unfold step in Hs. destruct (unloaded st) eqn:Hun; [discriminate|].
  destruct ev; simpl.
  - injection Hs as <-. by apply click_refines.
  - destruct (rec_result _) eqn:E; [|discriminate]. injection Hs as <-. by apply result_refines.
  - destruct (rec_end _) eqn:E; [|discriminate]. injection Hs as <-. by apply end_refines.
  - destruct (synth st) as [|u q] eqn:E; [discriminate|]. injection Hs as <-.
    by apply speechend_refines.
Qed.

(** C1: the greeting is handed to the synthesiser at most once per page,
    and exactly once as soon as [hasWished] is set. *)
Theorem greeting_at_most_once (st : @AState R) :
  reachable st -> greetings st <= 1 /\ (hasWished st = true -> greetings st = 1).
Proof.
  intros [[_ Hw] _]%reachable_invs. destruct (hasWished st).
  - destruct Hw as [-> _]. split; [lia|done].
  - split; [|done]. destruct Hw as [(_ & _ & -> & _)|(_ & _ & -> & _)]; lia.
Qed.

(** C3: the microphone is open only while [isListening] is set. *)
Theorem capture_only_while_listening (st : @AState R) :
  reachable st -> rec_capturing (recognition st) = true -> isListening st = true.
Proof. intros [[Hcap _] _]%reachable_invs. exact Hcap. Qed.

(** C2: [speak] never leaves the microphone open: the output is never
    transcribed by the assistant itself. *)
Theorem speak_stops_capture (st : @AState R) (text : string) (k : Cont) :
  reachable st -> rec_capturing (recognition (speak text k st)) = false.
Proof.
  intros [[Hcap _] _]%reachable_invs.
  destruct st as [l w sp u r q h un lg]; simpl in *.
  destruct l; simpl; [apply rec_stop_quiet|].
  destruct (rec_capturing r) eqn:E; [|done]. by specialize (Hcap eq_refl).
Qed.

(** C7: the script navigates only to a page other than the current one,
    and only right after the announcement of that page has finished. *)
Theorem navigation_safe (st : @AState R) (url : string) :
  reachable st -> In (ENavigate url) (log st) ->
  isCurrentPage (href st) url = false /\
  exists pre, log st = pre ++ [ESpoken (openingText url); ELog "Finished speaking."; ENavigate url].
Proof.
  intros [_ [_ Hlog]]%reachable_invs Hin. destruct (unloaded st).
  - destruct Hlog as (u & pre & Hpre & Hcur & Heq). rewrite Heq in Hin |- *.
    apply in_app_iff in Hin as [Hin|Hin]; [by destruct (Hpre url)|].
    simpl in Hin. destruct Hin as [|[|[[= ->]|[]]]]; try discriminate. eauto.
  - by destruct (Hlog url).
Qed.

(** C8: when the recogniser ends, capture restarts exactly when the
    assistant is listening and not speaking. *)
Theorem onend_rearm (st st' : @AState R) (r : R) :
  step RecEnd st = Some st' -> rec_end (recognition st) = Some r ->
  recognition st' =
    (if isListening st && negb (isSpeaking st) then default r (rec_start r) else r).
Proof.
  intros Hstep E. destruct st as [l w sp u r0 q h un lg]; simpl in *.
  unfold step in Hstep; simpl in Hstep. destruct un; [discriminate|]. rewrite E in Hstep.
  injection Hstep as <-. destruct l, sp; do 3 unfold_handlers; simpl; try done.
  by destruct (rec_start r).
Qed.

(** ** Properties of polite schedules *)

(** C5: with no click during an announcement, capture and speech output
    never overlap. *)
Theorem polite_no_overlap (st : @AState R) :
  reachable_polite st -> rec_capturing (recognition st) = true ->
  synth st = [] /\ isSpeaking st = false.
Proof.
  intros (_ & Hsp & Hcap & _)%reachable_polite_inv Hc.
  destruct (Hcap Hc) as [Hq _]. by rewrite Hsp, Hq.
Qed.

(** C11: with no click during an announcement, the popup is shown and the
    page blurred exactly while the assistant listens. *)
Theorem polite_popup_tracks_listening (st : @AState R) :
  reachable_polite st -> show (ui st) = isListening st /\ blurred (ui st) = isListening st.
Proof. intros (_ & _ & _ & Hs & Hb & _)%reachable_polite_inv. done. Qed.

(** C12: with no click during an announcement, at most one utterance is
    pending and [isSpeaking] says whether one is. *)
Theorem polite_single_utterance (st : @AState R) :
  reachable_polite st -> length (synth st) <= 1 /\ isSpeaking st = negb (is_nil (synth st)).
Proof. intros (Hl & Hs & _)%reachable_polite_inv. done. Qed.

Lemma stop_effect_heard (x : string) : stop_effect (ELog ("Heard: " +:+ x)) = false.
Proof. reflexivity. Qed.

Ltac finish_stops :=
  simpl; rewrite ?count_if_app, ?count_if_cons, ?count_if_nil, ?stop_effect_heard;
  simpl; repeat split; lia.

(** C6: with no click during an announcement, every result event whose
    transcript line 70 reads ends the session: at once for a navigation command, and
    after the reply is spoken otherwise. Then the assistant no longer
    listens, the popup is closed, and [stopListening] has run exactly once. *)
Theorem transcript_deactivates (st st1 : @AState R) (ev : SpeechRecognitionEvent) (t : string) :
  reachable_polite st -> transcriptOf ev = JsOk t -> step (RecResult ev) st = Some st1 ->
  exists st2, (st2 = st1 \/ step SpeechEnd st1 = Some st2) /\
    isListening st2 = false /\ show (ui st2) = false /\ stops st2 = S (stops st).
Proof.
  intros (_ & _ & Hcap & Hshow & _ & _ & Hpend)%reachable_polite_inv Ht Hstep.
  destruct st as [l w sp [sh bl bd] r q h un lg]; simpl in *.
  unfold step in Hstep; simpl in Hstep. destruct un; [discriminate|].
  destruct (rec_result r) as [r'|] eqn:E; [|discriminate]. injection Hstep as <-.
  assert (rec_capturing r = true) as Hc by (eapply result_capturing; eauto).
  destruct (Hcap Hc) as [-> ->]. subst sh. unfold stops.
  do 3 unfold_handlers; rewrite Ht; simpl.
  destruct (interpret _) as [|url| | | | |]; simpl;
    [| destruct (isCurrentPage h url) | | | | |];
    first [ eexists; split; [left; reflexivity|]; finish_stops
          | eexists; split; [right; reflexivity|]; finish_stops ].
Qed.

(** C4: refinement of the spec's session machine. Along every polite run
    from a reachable polite state, the abstract session (phase and
    greeted flag) follows the spec's transitions for the events delivered:
    [activate()] for a click, the transcript's intent for a result, a
    capture end for [end] and for a result whose transcript cannot be
    read (line 70 throws), and the end of output for an utterance's end. *)
Theorem polite_run_refines_spec (evs : list AEvent) (st st' : @AState R) :
  reachable_polite st -> run_polite evs st = Some st' ->
  spec_run (href st) (map spec_event evs) (abstract st) (abstract st').
Proof.
  revert st. induction evs as [|ev evs IH]; intros st Hr H; simpl in H.
  - injection H as <-. constructor.
  - destruct (polite ev st) eqn:Hp; [|discriminate].
    destruct (step ev st) as [st1|] eqn:Hs; [|discriminate].
    econstructor; [by apply step_refines|].
    rewrite <- (step_href ev st st1 Hs). apply IH; [|exact H].
    by apply (polite_step ev st st1).
Qed.

(** C13: [hasWished] (the spec's [hasGreeted]) never goes back to false,
    and becomes true exactly at the end of the greeting, on any schedule. *)
Theorem hasWished_step ev (st st' : @AState R) :
  step ev st = Some st' -> hasWished st' = hasWished st || ends_greeting ev st.
Proof.
  destruct st as [l w sp [sh bl bd] r q h un lg].
  destruct ev as [hrs|ev| |]; unfold step, ends_greeting; simpl; destruct un; try discriminate;
    intros H.
  - injection H as <-. destruct l, w; do 3 unfold_handlers; simpl;
      try destruct (rec_start r); reflexivity.
  - destruct (rec_result r) as [r'|]; [|discriminate]. injection H as <-. rewrite orb_false_r.
    apply (onresult_fields ev (set_recognition r' (mkA l w sp (mkUi sh bl bd) r q h false lg))).
  - destruct (rec_end r) as [r'|]; [|discriminate]. injection H as <-. rewrite orb_false_r.
    unfold onend, when, recStart, recStartThen, console_log, emit, set_recognition; simpl.
    destruct (l && negb sp); [destruct (rec_start r')|]; reflexivity.
  - destruct q as [|[t k] q]; [discriminate|]. injection H as <-.
    destruct k; do 3 unfold_handlers; simpl; rewrite ?orb_true_r, ?orb_false_r; destruct l, sp; simpl;
      try destruct (rec_start r); reflexivity.
Qed.

(** C9: speech output always completes. From any state with utterances
    queued, at most as many utterance ends as there are queued utterances
    lead to a silent synthesiser with [isSpeaking] false, unless the end of
    a navigation announcement ends the page first. The ends can always be
    delivered: no continuation queues a new utterance. *)
Theorem speech_drains (st : @AState R) :
  unloaded st = false -> synth st <> [] ->
  exists k st', (1 <= k <= length (synth st)) /\ run (repeat SpeechEnd k) st = Some st' /\
    ((k = length (synth st) /\ synth st' = [] /\ isSpeaking st' = false) \/ unloaded st' = true).
Proof.
  remember (synth st) as q eqn:Hq. revert st Hq.
  induction q as [|u q IH]; intros st Hq Hun Hne; [done|].
  set (st1 := onUtteranceEnd u (set_synth q st)).
  destruct (onUtteranceEnd_fields u (set_synth q st)) as (Hs1 & Hsp1 & Hun1).
  fold st1 in Hs1, Hsp1, Hun1.
  assert (synth (set_synth q st) = q /\ unloaded (set_synth q st) = unloaded st) as [Hq' Hu']
    by (by destruct st).
  rewrite Hq' in Hs1. rewrite Hu', Hun in Hun1. simpl in Hun1.
  pose proof (step_speechend u q st Hun (eq_sym Hq)) as Hstep. fold st1 in Hstep.
  destruct (unloaded st1) eqn:Hl1.
  - exists 1, st1. simpl. rewrite Hstep. split; [lia|]. auto.
  - destruct q as [|u' q'].
    + exists 1, st1. simpl. rewrite Hstep. split; [lia|]. auto.
    + destruct (IH st1 (eq_sym Hs1) Hl1 ltac:(done)) as (k & st' & Hk & Hrun & Hend).
      simpl length in *.
      exists (S k), st'. rewrite (run_repeat_S _ _ _ _ Hstep).
      split; [lia|]. split; [exact Hrun|].
      destruct Hend as [(-> & ? & ?)|?]; [left|right]; auto.
Qed.

(** C10: a result event whose transcript line 70 cannot read (the index
    is past the results, or the result has no alternative) makes the
    [async] handler throw. No command runs, nothing is said, the session
    stays where it was and the popup stays open. The recogniser's [end]
    that follows then restarts capture. *)
Theorem unreadable_result_rearms (st st1 : @AState R) (ev : SpeechRecognitionEvent) (e : string) :
  reachable_polite st -> transcriptOf ev = JsThrow e -> step (RecResult ev) st = Some st1 ->
  abstract st1 = abstract st /\ isListening st1 = true /\ show (ui st1) = true /\
  log st1 = log st ++ [EReject e] /\
  exists st2, step RecEnd st1 = Some st2 /\ rec_capturing (recognition st2) = true /\
    log st2 = log st1 ++ [ELog "Restarting recognition..."; ERecStart].
Proof.
  intros (_ & Hsp & Hcap & Hshow & _ & _ & Hpend)%reachable_polite_inv Ht Hstep.
  destruct st as [l w sp [sh bl bd] r q h un lg]; simpl in *.
  unfold step in Hstep; simpl in Hstep. destruct un; [discriminate|].
  destruct (rec_result r) as [r'|] eqn:E; [|discriminate]. injection Hstep as <-.
  destruct (Hcap (result_capturing r r' Hpend E)) as [-> ->]. simpl in Hsp. subst sp sh.
  destruct (rec_result_ends r r' E) as [r2 E2].
  destruct (rec_end_restartable r' r2 E2) as [r3 E3].
  unfold onresult. rewrite Ht. unfold emit, set_recognition; simpl.
  do 4 (split; [done|]). eexists. unfold step; simpl. rewrite E2.
  unfold onend, when, recStart, recStartThen, console_log, emit, set_recognition; simpl.
  rewrite E3; simpl. split; [done|]. split; [by eapply rec_start_capturing|].
  by rewrite <- app_assoc.
Qed.

(** ** Departures from the spec, on every schedule *)

(** C14: while the greeting is being spoken (the utterance at the head of
    the queue is the one [startListening] awaits), both [isListening] and
    [isSpeaking] are true, on every schedule: the spec's invariant that
    they are never both true beyond a transition does not hold. *)
Theorem greeting_both_flags (st : @AState R) (u : Utterance) (q : list Utterance) :
  reachable st -> synth st = u :: q -> utt_then u = KWish ->
  isListening st = true /\ isSpeaking st = true.
Proof.
  intros [[_ Hw] _]%reachable_invs Hq Hk. unfold inv_wish in Hw. destruct (hasWished st).
  - destruct Hw as [_ Hall]. rewrite Hq in Hall. by apply Forall_cons in Hall as [? _].
  - destruct Hw as [(_ & Hs & _)|(Hl & Hsp & _)]; [congruence|done].
Qed.

(** C15: a click while [pageSwitcher]'s announcement is still queued,
    after [takeCommand] has already stopped listening, is not refused: the
    assistant listens again and the popup toggles while the announcement
    plays. [recognition.start()] then either starts capture during the
    output, or throws when the recogniser has not ended yet. *)
Theorem click_during_announcement (st st' : @AState R) (hrs : Z) (u : Utterance)
    (q : list Utterance) :
  reachable st -> synth st = u :: q -> announcing (utt_then u) = true ->
  isListening st = false -> step (Click hrs) st = Some st' ->
  isListening st' = true /\ synth st' = synth st /\ show (ui st') = negb (show (ui st)) /\
  match rec_start (recognition st) with
  | Some r => recognition st' = r /\ rec_capturing r = true
  | None => recognition st' = recognition st /\ log st' = log st ++ [ERecStartError]
  end.
Proof.
  intros [[_ Hw] _]%reachable_invs Hq Hk Hl Hs.
  assert (hasWished st = true) as Hwished.
  { unfold inv_wish in Hw. destruct (hasWished st); [done|].
    destruct Hw as [(_ & Hs' & _)|(_ & _ & _ & _ & _ & t & Ht)]; rewrite Hq in *; [done|].
    injection Ht as -> _. done. }
  destruct st as [l w sp [sh bl bd] r q0 h un lg]; simpl in *. subst l w q0.
  unfold step in Hs; simpl in Hs. destruct un; [discriminate|]. injection Hs as <-.
  unfold startListening, listeningStarted, recStartThen, toggleChat, toggle_ui, console_log,
    emit, set_listening, set_ui, set_recognition; simpl.
  destruct (rec_start r) eqn:E; simpl; repeat split; try done. by eapply rec_start_capturing.
Qed.

(** C16: the end of a command's reply does not close the popup: it
    toggles it ([toggleChat]) while [stopListening] runs. So when the popup
    was already closed (after a click during an announcement), the end of
    the reply opens it while the assistant is not listening. *)
Theorem reply_end_toggles_popup (st st' : @AState R) (u : Utterance) (q : list Utterance) :
  synth st = u :: q -> utt_then u = KCommand -> step SpeechEnd st = Some st' ->
  isListening st' = false /\ show (ui st') = negb (show (ui st)) /\ stops st' = S (stops st).
Proof.
  intros Hq Hk Hs. destruct st as [l w sp [sh bl bd] r q0 h un lg], u as [t k]; simpl in *.
  subst q0 k. unfold step in Hs; simpl in Hs. destruct un; [discriminate|]. injection Hs as <-.
  unfold stops. do 3 unfold_handlers; simpl. finish_stops.
Qed.

(** C17: [stop()] during capture lets the engine still deliver the final
    result, and [onresult] has no [isListening] test. So a result that
    arrives after [stopListening] (after a click during an announcement,
    the reply's end stops a recogniser that is capturing) is acted on
    while the assistant is idle: the session goes from Idle straight to
    Speaking, a transition the spec's machine does not have. *)
Theorem result_while_idle (st st' : @AState R) (ev : SpeechRecognitionEvent) (t : string) :
  isListening st = false -> synth st = [] -> transcriptOf ev = JsOk t ->
  (forall url, command_of_transcript t <> NavigateTo url) ->
  step (RecResult ev) st = Some st' ->
  abstract st = mkSession PIdle (hasWished st) /\
  abstract st' = mkSession PSpeaking (hasWished st) /\
  ~ spec_step (href st) (spec_event (RecResult ev)) (abstract st) (abstract st').
Proof.
  intros Hl Hq Ht Hnav Hs. destruct st as [l w sp [sh bl bd] r q h un lg]; simpl in *.
  subst l q. unfold step in Hs; simpl in Hs. destruct un; [discriminate|].
  destruct (rec_result r) as [r'|]; [|discriminate]. injection Hs as <-.
  unfold spec_event, command_of_transcript in *. rewrite Ht.
  do 3 unfold_handlers; rewrite Ht; simpl.
  destruct (interpret _) as [|url| | | | |]; [| by destruct (Hnav url) | | | | |];
    unfold abstract, phase_of; simpl; (split; [done|]); (split; [done|]);
    intros Hspec; inversion Hspec.
Qed.

End Invariants.

(** ** Witnesses on concrete schedules *)

Lemma greeting_at_most_once_witness :
  reachable (after evs_listening) /\
  greetings (after evs_listening) <= 1 /\
  (hasWished (after evs_listening) = true -> greetings (after evs_listening) = 1).
Proof.
  assert (reachable (after evs_listening)) as Hr
    by (apply (run_reachable evs_listening (init page)); [constructor|vm_compute; reflexivity]).
  split; [exact Hr|]. apply greeting_at_most_once. exact Hr.
Defined.

Lemma capture_only_while_listening_witness :
  reachable (after evs_listening) /\ rec_capturing (recognition (after evs_listening)) = true /\
  isListening (after evs_listening) = true.
Proof.
  assert (reachable (after evs_listening)) as Hr
    by (apply (run_reachable evs_listening (init page)); [constructor|vm_compute; reflexivity]).
  split; [exact Hr|]. split; [vm_compute; reflexivity|].
  apply capture_only_while_listening; [exact Hr|vm_compute; reflexivity].
Defined.

Lemma speak_stops_capture_witness :
  reachable (after evs_listening) /\
  rec_capturing (recognition (speak "Hello, how can I help you?" KCommand (after evs_listening))) = false.
Proof.
  assert (reachable (after evs_listening)) as Hr
    by (apply (run_reachable evs_listening (init page)); [constructor|vm_compute; reflexivity]).
  split; [exact Hr|]. apply speak_stops_capture. exact Hr.
Defined.

Lemma navigation_safe_witness :
  reachable (after evs_blog) /\ In (ENavigate "Blog.html") (log (after evs_blog)) /\
  isCurrentPage (href (after evs_blog)) "Blog.html" = false /\
  exists pre, log (after evs_blog) =
    pre ++ [ESpoken (openingText "Blog.html"); ELog "Finished speaking."; ENavigate "Blog.html"].
Proof.
  assert (reachable (after evs_blog)) as Hr
    by (apply (run_reachable evs_blog (init page)); [constructor|vm_compute; reflexivity]).
  assert (In (ENavigate "Blog.html") (log (after evs_blog))) as Hin
    by (vm_compute; repeat first [left; reflexivity | right]).
  split; [exact Hr|]. split; [exact Hin|]. apply navigation_safe; [exact Hr|exact Hin].
Defined.

Lemma onend_rearm_witness :
  step RecEnd (after evs_listening) = Some (after (evs_listening ++ [RecEnd])) /\
  rec_end (recognition (after evs_listening)) = Some RecIdle /\
  recognition (after (evs_listening ++ [RecEnd])) =
    (if isListening (after evs_listening) && negb (isSpeaking (after evs_listening))
     then default RecIdle (rec_start RecIdle) else RecIdle).
Proof.
  assert (step RecEnd (after evs_listening) = Some (after (evs_listening ++ [RecEnd]))) as Hs
    by (vm_compute; reflexivity).
  assert (rec_end (recognition (after evs_listening)) = Some RecIdle) as He
    by (vm_compute; reflexivity).
  split; [exact Hs|]. split; [exact He|]. exact (onend_rearm _ _ _ Hs He).
Defined.

Lemma polite_no_overlap_witness :
  reachable_polite (after_polite evs_listening) /\
  rec_capturing (recognition (after_polite evs_listening)) = true /\
  synth (after_polite evs_listening) = [] /\ isSpeaking (after_polite evs_listening) = false.
Proof.
  assert (reachable_polite (after_polite evs_listening)) as Hr
    by (apply (run_polite_reachable evs_listening (init page)); [constructor|vm_compute; reflexivity]).
  assert (rec_capturing (recognition (after_polite evs_listening)) = true) as Hc
    by (vm_compute; reflexivity).
  split; [exact Hr|]. split; [exact Hc|]. exact (polite_no_overlap _ Hr Hc).
Defined.

Lemma polite_popup_tracks_listening_witness :
  reachable_polite (after_polite evs_greeting) /\
  show (ui (after_polite evs_greeting)) = isListening (after_polite evs_greeting) /\
  blurred (ui (after_polite evs_greeting)) = isListening (after_polite evs_greeting).
Proof.
  assert (reachable_polite (after_polite evs_greeting)) as Hr
    by (apply (run_polite_reachable evs_greeting (init page)); [constructor|vm_compute; reflexivity]).
  split; [exact Hr|]. exact (polite_popup_tracks_listening _ Hr).
Defined.

Lemma polite_single_utterance_witness :
  reachable_polite (after_polite evs_greeting) /\
  length (synth (after_polite evs_greeting)) <= 1 /\
  isSpeaking (after_polite evs_greeting) = negb (is_nil (synth (after_polite evs_greeting))).
Proof.
  assert (reachable_polite (after_polite evs_greeting)) as Hr
    by (apply (run_polite_reachable evs_greeting (init page)); [constructor|vm_compute; reflexivity]).
  split; [exact Hr|]. exact (polite_single_utterance _ Hr).
Defined.

Lemma transcript_deactivates_witness :
  reachable_polite (after_polite evs_listening) /\ transcriptOf (heard "STOP") = JsOk "STOP" /\
  step (RecResult (heard "STOP")) (after_polite evs_listening) =
    Some (after_polite (evs_listening ++ [RecResult (heard "STOP")])) /\
  exists st2, (st2 = after_polite (evs_listening ++ [RecResult (heard "STOP")]) \/
               step SpeechEnd (after_polite (evs_listening ++ [RecResult (heard "STOP")])) = Some st2) /\
    isListening st2 = false /\ show (ui st2) = false /\
    stops st2 = S (stops (after_polite evs_listening)).
Proof.
  assert (reachable_polite (after_polite evs_listening)) as Hr
    by (apply (run_polite_reachable evs_listening (init page)); [constructor|vm_compute; reflexivity]).
  assert (step (RecResult (heard "STOP")) (after_polite evs_listening) =
          Some (after_polite (evs_listening ++ [RecResult (heard "STOP")]))) as Hs
    by (vm_compute; reflexivity).
  split; [exact Hr|]. split; [reflexivity|]. split; [exact Hs|].
  exact (transcript_deactivates _ _ (heard "STOP") "STOP" Hr eq_refl Hs).
Defined.

Lemma polite_run_refines_spec_witness :
  spec_run (href (init page)) (map spec_event evs_session)
    (abstract (init page)) (abstract (after_polite evs_session)).
Proof.
  apply polite_run_refines_spec; [constructor|vm_compute; reflexivity].
Defined.

Lemma hasWished_step_witness :
  hasWished (after (evs_greeting ++ [SpeechEnd])) =
    hasWished (after evs_greeting) || ends_greeting SpeechEnd (after evs_greeting).
Proof. apply hasWished_step. vm_compute. reflexivity. Defined.

Lemma speech_drains_witness :
  exists k st', (1 <= k <= length (synth (after evs_race))) /\
    run (repeat SpeechEnd k) (after evs_race) = Some st' /\
    ((k = length (synth (after evs_race)) /\ synth st' = [] /\ isSpeaking st' = false) \/
     unloaded st' = true).
Proof. apply speech_drains; vm_compute; [reflexivity|discriminate]. Defined.

Lemma unreadable_result_rearms_witness :
  reachable_polite (after_polite evs_listening) /\
  transcriptOf unreadable_event = JsThrow (undefinedRead "0") /\
  step (RecResult unreadable_event) (after_polite evs_listening) =
    Some (after_polite evs_unreadable) /\
  abstract (after_polite evs_unreadable) = abstract (after_polite evs_listening) /\
  isListening (after_polite evs_unreadable) = true /\
  show (ui (after_polite evs_unreadable)) = true /\
  log (after_polite evs_unreadable) =
    log (after_polite evs_listening) ++ [EReject (undefinedRead "0")] /\
  exists st2, step RecEnd (after_polite evs_unreadable) = Some st2 /\
    rec_capturing (recognition st2) = true /\
    log st2 = log (after_polite evs_unreadable) ++ [ELog "Restarting recognition..."; ERecStart].
Proof.
  assert (reachable_polite (after_polite evs_listening)) as Hr
    by (apply (run_polite_reachable evs_listening (init page)); [constructor|vm_compute; reflexivity]).
  assert (step (RecResult unreadable_event) (after_polite evs_listening) =
          Some (after_polite evs_unreadable)) as Hs by (vm_compute; reflexivity).
  split; [exact Hr|]. split; [reflexivity|]. split; [exact Hs|].
  exact (unreadable_result_rearms _ _ unreadable_event _ Hr eq_refl Hs).
Defined.

(** ** A click before the recogniser has ended *)

(** C18: with the Web Speech recogniser, a click when the assistant is
    idle but the previous recognition session has not ended yet (its
    [end] event is still to come) makes [recognition.start()] throw
    [InvalidStateError]: the flag is set and the popup opens, but capture
    does not start and "Assistant is now listening..." is not logged. The
    [end] that follows restarts capture through [onend], unless the
    assistant speaks. *)
Theorem early_click_start_error (st st' : @AState RecState) (hrs : Z) :
  hasWished st = true -> isListening st = false -> recognition st <> RecIdle ->
  step (Click hrs) st = Some st' ->
  isListening st' = true /\ show (ui st') = negb (show (ui st)) /\
  recognition st' = recognition st /\ log st' = log st ++ [ERecStartError] /\
  exists st2, step RecEnd st' = Some st2 /\
    rec_capturing (recognition st2) = negb (isSpeaking st).
Proof.
  intros Hw Hl Hr Hs. destruct st as [l w sp [sh bl bd] r q h un lg]; simpl in *. subst l w.
  unfold step in Hs; simpl in Hs. destruct un; [discriminate|]. injection Hs as <-.
  assert (web_start r = None) as E by (destruct r; done).
  unfold startListening, listeningStarted, recStartThen, toggleChat, toggle_ui, console_log,
    emit, set_listening, set_ui, set_recognition; simpl. rewrite E.
  repeat split. eexists. unfold step; simpl.
  assert (web_end r = Some RecIdle) as E2 by (destruct r; done). rewrite E2.
  split; [reflexivity|]. unfold onend, when, recStart, recStartThen, console_log, emit,
    set_recognition; simpl. by destruct sp.
Qed.

(** ** Witnesses of the departures *)

(** The state where the click of [evs_race] arrives: the announcement of
    "go to contact page" on the contact page is queued. *)
Definition race_pre : list AEvent := removelast evs_race.

(** The state before the last utterance end of [evs_stranded]: a reply is
    queued while the popup is closed. *)
Definition strand_pre : list AEvent := removelast evs_stranded.

Lemma greeting_both_flags_witness :
  reachable (after evs_greeting) /\
  synth (after evs_greeting) = [mkUtt (newUtterance (greetingText 9)) KWish] /\
  isListening (after evs_greeting) = true /\ isSpeaking (after evs_greeting) = true.
Proof.
  assert (reachable (after evs_greeting)) as Hr
    by (apply (run_reachable evs_greeting (init page)); [constructor|vm_compute; reflexivity]).
  assert (synth (after evs_greeting) = [mkUtt (newUtterance (greetingText 9)) KWish]) as Hq
    by (vm_compute; reflexivity).
  split; [exact Hr|]. split; [exact Hq|].
  exact (greeting_both_flags _ _ [] Hr Hq eq_refl).
Defined.

Lemma click_during_announcement_witness :
  reachable (after race_pre) /\
  synth (after race_pre) = [mkUtt (newUtterance alreadyText) KAlready] /\
  isListening (after race_pre) = false /\
  step (Click 10) (after race_pre) = Some (after evs_race) /\
  isListening (after evs_race) = true /\ synth (after evs_race) = synth (after race_pre) /\
  show (ui (after evs_race)) = negb (show (ui (after race_pre))) /\
  match rec_start (recognition (after race_pre)) with
  | Some r => recognition (after evs_race) = r /\ rec_capturing r = true
  | None => recognition (after evs_race) = recognition (after race_pre) /\
            log (after evs_race) = log (after race_pre) ++ [ERecStartError]
  end.
Proof.
  assert (reachable (after race_pre)) as Hr
    by (apply (run_reachable race_pre (init page)); [constructor|vm_compute; reflexivity]).
  assert (synth (after race_pre) = [mkUtt (newUtterance alreadyText) KAlready]) as Hq
    by (vm_compute; reflexivity).
  assert (isListening (after race_pre) = false) as Hl by (vm_compute; reflexivity).
  assert (step (Click 10) (after race_pre) = Some (after evs_race)) as Hs
    by (vm_compute; reflexivity).
  split; [exact Hr|]. split; [exact Hq|]. split; [exact Hl|]. split; [exact Hs|].
  exact (click_during_announcement _ _ 10 _ [] Hr Hq eq_refl Hl Hs).
Defined.

Lemma reply_end_toggles_popup_witness :
  synth (after strand_pre) = [mkUtt (newUtterance "Hello, how can I help you?") KCommand] /\
  step SpeechEnd (after strand_pre) = Some (after evs_stranded) /\
  show (ui (after strand_pre)) = false /\
  isListening (after evs_stranded) = false /\ show (ui (after evs_stranded)) = true /\
  stops (after evs_stranded) = S (stops (after strand_pre)).
Proof.
  assert (synth (after strand_pre) = [mkUtt (newUtterance "Hello, how can I help you?") KCommand]) as Hq
    by (vm_compute; reflexivity).
  assert (step SpeechEnd (after strand_pre) = Some (after evs_stranded)) as Hs
    by (vm_compute; reflexivity).
  assert (show (ui (after strand_pre)) = false) as Hsh by (vm_compute; reflexivity).
  split; [exact Hq|]. split; [exact Hs|]. split; [exact Hsh|].
  destruct (reply_end_toggles_popup _ _ _ [] Hq eq_refl Hs) as (Hl & Hshow & Hstops).
  rewrite Hsh in Hshow. auto.
Defined.

Lemma result_while_idle_witness :
  isListening (after evs_late_result) = false /\ synth (after evs_late_result) = [] /\
  recognition (after evs_late_result) = RecFlushing /\
  transcriptOf (heard "hello") = JsOk "hello" /\
  (forall url, command_of_transcript "hello" <> NavigateTo url) /\
  step (RecResult (heard "hello")) (after evs_late_result) =
    Some (after (evs_late_result ++ [RecResult (heard "hello")])) /\
  ~ spec_step (href (after evs_late_result)) (spec_event (RecResult (heard "hello")))
      (abstract (after evs_late_result))
      (abstract (after (evs_late_result ++ [RecResult (heard "hello")]))).
Proof.
  assert (isListening (after evs_late_result) = false) as Hl by (vm_compute; reflexivity).
  assert (synth (after evs_late_result) = []) as Hq by (vm_compute; reflexivity).
  assert (forall url, command_of_transcript "hello" <> NavigateTo url) as Hnav
    by (intros url; vm_compute; discriminate).
  assert (step (RecResult (heard "hello")) (after evs_late_result) =
          Some (after (evs_late_result ++ [RecResult (heard "hello")]))) as Hs
    by (vm_compute; reflexivity).
  split; [exact Hl|]. split; [exact Hq|]. split; [vm_compute; reflexivity|].
  split; [reflexivity|]. split; [exact Hnav|]. split; [exact Hs|].
  exact (proj2 (proj2 (result_while_idle _ _ (heard "hello") "hello" Hl Hq eq_refl Hnav Hs))).
Defined.

Lemma early_click_start_error_witness :
  hasWished (after_polite (removelast evs_early_click)) = true /\
  isListening (after_polite (removelast evs_early_click)) = false /\
  recognition (after_polite (removelast evs_early_click)) = RecStopping /\
  step (Click 10) (after_polite (removelast evs_early_click)) = Some (after_polite evs_early_click) /\
  log (after_polite evs_early_click) = log (after_polite (removelast evs_early_click)) ++ [ERecStartError].
Proof.
  assert (step (Click 10) (after_polite (removelast evs_early_click)) =
          Some (after_polite evs_early_click)) as Hs by (vm_compute; reflexivity).
  assert (recognition (after_polite (removelast evs_early_click)) = RecStopping) as Hr
    by (vm_compute; reflexivity).
  split; [vm_compute; reflexivity|]. split; [vm_compute; reflexivity|]. split; [exact Hr|].
  split; [exact Hs|].
  apply (early_click_start_error _ _ 10); [vm_compute; reflexivity|vm_compute; reflexivity| |exact Hs].
  by rewrite Hr.
Defined.

End Assistant.
