(* ===== verification/Drag.v ===== *)
(** * Drag: the long-press drag recogniser

    The script's second state machine (lines 12-14 and 158-193) moves the
    icon. A [mousedown] on the icon arms a 300 ms timer. When the timer
    fires, the callback records the offset of the press point from the
    icon's corner, sets [isDragging] and attaches [onMouseMove] to the
    document. While dragging, each [mousemove] puts the icon's corner at
    the pointer minus that offset. A [mouseup] anywhere clears the last
    timer and, if dragging, stops and detaches the listener.

    The state is a pair. [Script] holds the script's variables and the
    icon's style. [Browser] holds what the browser keeps for it: the clock,
    the pending [setTimeout] callbacks with the press coordinates each one
    closed over, the next timer id, the pending animation frames, and a
    ghost field [pressedAt] with the time of the press on the icon that has
    not been released yet. The icon is positioned by [left]/[top] with no
    margin, so [getBoundingClientRect()] reads the same corner.

    JavaScript numbers are [option Z]. [None] is [NaN], which is also the
    result of arithmetic on [undefined]. Assigning ["NaNpx"] to a style
    property is ignored. *)

From stdpp Require Import base list.
From Stdlib Require Import ZArith Lia.
From S2P Require Import Prelude.

Module Drag.
Local Open Scope va_scope.

(** ** Data *)

Inductive Cursor := CursorUnset | CursorGrabbing | CursorGrab.

(** [a - b] on numbers that may be [NaN] or [undefined]. *)
Definition js_sub (a b : option Z) : option Z :=
  match a, b with
  | Some a, Some b => Some (a - b)%Z
  | _, _ => None
  end.

(** A pending [setTimeout] callback: its id, due time and the [clientX] and
    [clientY] of the [mousedown] event it closed over. *)
Record Timer := mkTimer { t_id : nat; t_due : Z; t_clientX : Z; t_clientY : Z }.

Record Script := mkS {
  isDragging : bool;
  offsetX : option Z;
  offsetY : option Z;
  longPressTimeout : option nat;
  cursor : Cursor;
  left : Z;
  top : Z;
  moveListener : bool   (** [onMouseMove] is a [mousemove] listener of [document] *)
}.

Record Browser := mkB {
  now : Z;
  timers : list Timer;
  nextId : nat;
  frames : nat;           (** pending [requestAnimationFrame(onMouseMove)] calls *)
  pressedAt : option Z    (** ghost: the press on the icon not yet released *)
}.

Definition DState : Type := Script * Browser.

(** Pointer events, and the browser's own steps. *)
Inductive DEvent :=
  | MouseDown (clientX clientY : Z)   (** on the icon *)
  | MouseMove (clientX clientY : Z)   (** anywhere in the document *)
  | MouseUp                           (** anywhere in the document *)
  | Advance (dt : Z)                  (** [dt] ms pass *)
  | TimerFire                         (** the earliest due timer runs *)
  | FrameFire.                        (** the next animation frame runs *)

(** ** Field updates *)

Definition set_longPressTimeout (id : option nat) (s : Script) : Script :=
  let 'mkS d ox oy _ c l t m := s in mkS d ox oy id c l t m.
Definition set_offsets (ox oy : option Z) (s : Script) : Script :=
  let 'mkS d _ _ lp c l t m := s in mkS d ox oy lp c l t m.
Definition set_dragging (d : bool) (s : Script) : Script :=
  let 'mkS _ ox oy lp c l t m := s in mkS d ox oy lp c l t m.
Definition set_cursor (c : Cursor) (s : Script) : Script :=
  let 'mkS d ox oy lp _ l t m := s in mkS d ox oy lp c l t m.
(** [style.left = `${newX}px`; style.top = `${newY}px`]: a [NaN] value
    is not a CSS length and leaves the property as it was. *)
Definition set_position (newX newY : option Z) (s : Script) : Script :=
  let 'mkS d ox oy lp c l t m := s in mkS d ox oy lp c (default l newX) (default t newY) m.
(** [addEventListener] and [removeEventListener] with the one function
    [onMouseMove]: adding it twice registers it once. *)
Definition set_listener (m : bool) (s : Script) : Script :=
  let 'mkS d ox oy lp c l t _ := s in mkS d ox oy lp c l t m.

Definition set_now (n : Z) (b : Browser) : Browser :=
  let 'mkB _ q id fr p := b in mkB n q id fr p.
Definition set_timers (q : list Timer) (b : Browser) : Browser :=
  let 'mkB n _ id fr p := b in mkB n q id fr p.
Definition set_frames (fr : nat) (b : Browser) : Browser :=
  let 'mkB n q id _ p := b in mkB n q id fr p.
Definition set_pressed (p : option Z) (b : Browser) : Browser :=
  let 'mkB n q id fr _ := b in mkB n q id fr p.

(** ** Browser services *)

(** [setTimeout(cb, delay)] with [cb] closing over the press point: the
    id is fresh. *)
Definition setTimeout (delay x y : Z) (b : Browser) : nat * Browser :=
  let 'mkB n q id fr p := b in (id, mkB n (q ++ [mkTimer id (n + delay)%Z x y]) (S id) fr p).

(** [clearTimeout(id)]: [clearTimeout(undefined)] does nothing. *)
Definition clearTimeout (id : option nat) (b : Browser) : Browser :=
  set_timers (List.filter (fun t => negb (bool_decide (Some (t_id t) = id))) (timers b)) b.

Definition requestAnimationFrame (b : Browser) : Browser := set_frames (S (frames b)) b.

(** ** Handlers *)

(** The [mousedown] listener (lines 159-170). *)
Definition mousedown (x y : Z) (st : DState) : DState :=
  let '(s, b) := st in
  let '(id, b') := setTimeout 300 x y b in
  (set_longPressTimeout (Some id) s, set_pressed (Some (now b)) b').

(** The timer callback (lines 161-169), run with the press point. *)
Definition longPress (x y : Z) (st : DState) : DState :=
  let '(s, b) := st in
  (s |> set_offsets (Some (x - left s)%Z) (Some (y - top s)%Z)
     |> set_dragging true
     |> set_cursor CursorGrabbing
     |> set_listener true,
   requestAnimationFrame b).

(** [onMouseMove(event)] (lines 173-183). Its argument is [Some] pointer
    for a [MouseEvent]. It is [None] for the timestamp that
    [requestAnimationFrame] passes, whose [clientX] is [undefined]. *)
Definition onMouseMove (ev : option (Z * Z)) (s : Script) : Script :=
  if isDragging s then
    let newX := js_sub (fst <$> ev) (offsetX s) in
    let newY := js_sub (snd <$> ev) (offsetY s) in
    set_position newX newY s
  else s.

(** The [mouseup] listener (lines 186-193). *)
Definition mouseup (st : DState) : DState :=
  let '(s, b) := st in
  let b := clearTimeout (longPressTimeout s) b in
  let s := if isDragging s
           then s |> set_cursor CursorGrab |> set_dragging false |> set_listener false
           else s in
  (s, set_pressed None b).

(** The page at load: nothing armed, the icon at its CSS position. Browser
    timer ids start at 1. *)
Definition init (x0 y0 : Z) : DState :=
  (mkS false None None None CursorUnset x0 y0 false, mkB 0 [] 1 0 None).

(** ** Events *)

(** Timers all have the delay 300 and the clock only moves forward, so the
    head of the queue is the earliest due. It fires no earlier than due. *)
Definition step (ev : DEvent) (st : DState) : option DState :=
  let '(s, b) := st in
  match ev with
  | MouseDown x y => Some (mousedown x y st)
  | MouseMove x y => Some (if moveListener s then (onMouseMove (Some (x, y)) s, b) else st)
  | MouseUp => Some (mouseup st)
  | Advance dt => if bool_decide (0 <= dt)%Z then Some (s, set_now (now b + dt)%Z b) else None
  | TimerFire =>
      match timers b with
      | t :: q =>
          if bool_decide (t_due t <= now b)%Z
          then Some (longPress (t_clientX t) (t_clientY t) (s, set_timers q b))
          else None
      | [] => None
      end
  | FrameFire =>
      match frames b with
      | S n => Some (onMouseMove None s, set_frames n b)
      | O => None
      end
  end.

Fixpoint run (evs : list DEvent) (st : DState) : option DState :=
  match evs with
  | [] => Some st
  | ev :: evs => match step ev st with Some st' => run evs st' | None => None end
  end.

Inductive reachable : DState -> Prop :=
  | reachable_init x0 y0 : reachable (init x0 y0)
  | reachable_step ev st st' : reachable st -> step ev st = Some st' -> reachable st'.

(** Every press on the icon is released before the next one. *)
Definition bracketed (ev : DEvent) (st : DState) : bool :=
  match ev with
  | MouseDown _ _ => is_nil (option_list (pressedAt st.2))
  | _ => true
  end.

(** [run] that refuses a press while the button is down. *)
Fixpoint run_bracketed (evs : list DEvent) (st : DState) : option DState :=
  match evs with
  | [] => Some st
  | ev :: evs =>
      if bracketed ev st
      then match step ev st with Some st' => run_bracketed evs st' | None => None end
      else None
  end.

(** The state after [evs] from an icon at (0, 0). *)
Definition drag_after (evs : list DEvent) : DState :=
  from_option id (init 0 0) (run evs (init 0 0)).

(** With bracketed presses, at most one timer is pending, and none while
    dragging. *)
Definition single_timer (st : DState) : Prop :=
  length (timers st.2) <= 1 /\ (isDragging st.1 = true -> timers st.2 = []).

(** Two presses before one release, then 300 ms. *)
Definition evs_double_press : list DEvent := [MouseDown 50 50; MouseDown 60 60; MouseUp; Advance 300].

(** A press held for 300 ms, until the timer fires. *)
Definition evs_hold : list DEvent := [MouseDown 50 50; Advance 300; TimerFire].

Inductive reachable_bracketed : DState -> Prop :=
  | bracketed_init x0 y0 : reachable_bracketed (init x0 y0)
  | bracketed_step ev st st' :
      reachable_bracketed st -> bracketed ev st = true -> step ev st = Some st' ->
      reachable_bracketed st'.

(** Events that neither press nor release the button. *)
Definition is_move_event (ev : DEvent) : bool :=
  match ev with
  | MouseMove _ _ | Advance _ | FrameFire => true
  | _ => false
  end.

(** Events that leave the button as it is. *)
Definition keeps_button (ev : DEvent) : bool :=
  match ev with
  | MouseDown _ _ | MouseUp => false
  | _ => true
  end.

(** The pointer position of the last [mousemove] of a schedule. *)
Fixpoint last_move (evs : list DEvent) : option (Z * Z) :=
  match evs with
  | [] => None
  | MouseMove x y :: evs => Some (default (x, y) (last_move evs))
  | _ :: evs => last_move evs
  end.

Definition position (st : DState) : Z * Z := (left st.1, top st.1).

(** ** Invariants *)

(** The listener is attached exactly while dragging, and the offsets are
    numbers then. *)
Definition drag_inv (st : DState) : Prop :=
  moveListener st.1 = isDragging st.1 /\
  (isDragging st.1 = true -> exists ox oy, offsetX st.1 = Some ox /\ offsetY st.1 = Some oy).

(** With bracketed presses, the only pending timer is the current press's,
    due 300 ms after it. It is the one [longPressTimeout] names, and a drag
    is under way only when the press has lasted 300 ms. *)
Definition press_inv (st : DState) : Prop :=
  (pressedAt st.2 = None -> timers st.2 = []) /\
  (forall t0, pressedAt st.2 = Some t0 ->
     (t0 <= now st.2)%Z /\
     Forall (fun t => t_due t = (t0 + 300)%Z /\ longPressTimeout st.1 = Some (t_id t)) (timers st.2)) /\
  (isDragging st.1 = true -> exists t0, pressedAt st.2 = Some t0 /\ (t0 + 300 <= now st.2)%Z).

(** ** Lemmas *)

Ltac destruct_dstate st :=
  let s := fresh "s" in let b := fresh "b" in
  destruct st as [s b]; destruct s, b.

Lemma step_mousedown x y st : step (MouseDown x y) st = Some (mousedown x y st).
Proof. by destruct st. Qed.

Lemma step_mouseup st : step MouseUp st = Some (mouseup st).
Proof. by destruct st. Qed.

Lemma clearTimeout_all (lp : option nat) (q : list Timer) (P : Timer -> Prop) :
  Forall (fun t => P t /\ lp = Some (t_id t)) q ->
  List.filter (fun t => negb (bool_decide (Some (t_id t) = lp))) q = [].
Proof.
  induction 1 as [|t q [_ ->] _ IH]; [done|]. simpl. by rewrite bool_decide_eq_true_2.
Qed.

Lemma step_now_mono ev st st' : step ev st = Some st' -> (now st.2 <= now st'.2)%Z.
Proof.
  destruct_dstate st. destruct ev; simpl; intros H;
    repeat first [case_bool_decide | case_match]; simplify_eq/=; lia.
Qed.

Lemma run_now_mono evs st st' : run evs st = Some st' -> (now st.2 <= now st'.2)%Z.
Proof.
  revert st. induction evs as [|ev evs IH]; simpl; intros st H; [by simplify_eq|].
  destruct (step ev st) as [st1|] eqn:E; [|done].
  pose proof (step_now_mono _ _ _ E). specialize (IH _ H). lia.
Qed.

Lemma step_drag_inv ev st st' : drag_inv st -> step ev st = Some st' -> drag_inv st'.
Proof.
  unfold drag_inv. destruct_dstate st. intros [Hm Hd] H.
  destruct ev; simpl in *; unfold onMouseMove in *;
    repeat case_match; simplify_eq/=; eauto.
Qed.

Lemma step_press_inv ev st st' :
  press_inv st -> bracketed ev st = true -> step ev st = Some st' -> press_inv st'.
Proof.
  unfold press_inv. destruct_dstate st. intros (Hnone & Hsome & Hdrag) Hbr H.
  destruct ev; simpl in *.
  - (* mousedown *)
    destruct pressedAt0; [done|]. simplify_eq/=. rewrite (Hnone eq_refl).
    split; [done|]. split.
    + intros t0 [= <-]. split; [lia|]. repeat constructor.
    + intros ->. destruct (Hdrag eq_refl) as (? & ? & _). done.
  - (* mousemove *)
    simplify_eq/=. case_match; simpl; [unfold onMouseMove; case_match|]; simpl; eauto.
  - (* mouseup *)
    simplify_eq/=. split; [|split; [done|]].
    + intros _. destruct pressedAt0 as [t0|].
      * destruct (Hsome t0 eq_refl) as [_ Hall]. by apply (clearTimeout_all _ _ _ Hall).
      * by rewrite (Hnone eq_refl).
    + destruct isDragging0; simpl; intros; done.
  - (* advance *)
    case_bool_decide; simplify_eq/=. split; [done|]. split.
    + intros t0 Ht0. destruct (Hsome t0 Ht0). split; [lia|done].
    + intros Hd. destruct (Hdrag Hd) as (t0 & ? & ?). exists t0. split; [done|lia].
  - (* timer *)
    destruct timers0 as [|t q] eqn:Eq; [done|]. case_bool_decide; simplify_eq/=.
    destruct pressedAt0 as [t0|]; [|by discriminate (Hnone eq_refl)].
    destruct (Hsome t0 eq_refl) as [Hle Hall]. apply Forall_cons in Hall as [[Hdue _] Hq].
    split; [done|]. split.
    + intros ? [= <-]. done.
    + intros _. exists t0. split; [done|lia].
  - (* frame *)
    destruct frames0; simplify_eq/=. unfold onMouseMove. case_match; simpl; eauto.
Qed.

Lemma reachable_drag_inv st : reachable st -> drag_inv st.
Proof.
  induction 1 as [x0 y0|ev st st' _ IH Hs]; [by split|]. by apply (step_drag_inv ev st).
Qed.

Lemma reachable_bracketed_reachable st : reachable_bracketed st -> reachable st.
Proof. induction 1; econstructor; eauto. Qed.

Lemma reachable_press_inv st : reachable_bracketed st -> press_inv st.
Proof.
  induction 1 as [x0 y0|ev st st' _ IH Hbr Hs].
  - split; [done|]. split; [done|]. done.
  - by apply (step_press_inv ev st).
Qed.

Lemma step_position_idle ev st st' :
  step ev st = Some st' -> isDragging st.1 = false -> position st' = position st.
Proof.
  unfold position. destruct_dstate st. intros H Hd; simpl in *. subst.
  destruct ev; simpl in *; unfold onMouseMove in *; repeat case_match; by simplify_eq/=.
Qed.

(** Only a timer starts a drag. *)
Lemma step_starts_drag ev st st' :
  step ev st = Some st' -> isDragging st'.1 = true -> isDragging st.1 = true \/ ev = TimerFire.
Proof.
  destruct_dstate st. intros H Hd.
  destruct ev; simpl in *; unfold onMouseMove in *; repeat case_match; simplify_eq/=; auto.
Qed.

Lemma step_keeps_pressed ev st st' :
  keeps_button ev = true -> step ev st = Some st' -> pressedAt st'.2 = pressedAt st.2.
Proof.
  destruct_dstate st. intros Hk H.
  destruct ev; simpl in *; repeat case_match; by simplify_eq/=.
Qed.

Lemma step_bracketed_reachable ev st st' :
  reachable_bracketed st -> keeps_button ev = true -> step ev st = Some st' ->
  reachable_bracketed st'.
Proof. intros Hr Hk Hs. eapply bracketed_step; eauto. by destruct ev. Qed.

Lemma run_bracketed_reachable evs st st' :
  reachable_bracketed st -> Forall (fun ev => keeps_button ev = true) evs ->
  run evs st = Some st' -> reachable_bracketed st'.
Proof.
  intros Hr Hall. revert st Hr. induction Hall as [|ev evs Hev _ IH]; intros st Hr H;
    simpl in H; [by simplify_eq|].
  destruct (step ev st) as [st1|] eqn:E; [|done].
  eapply IH; [|exact H]. by apply (step_bracketed_reachable ev st).
Qed.

(** While dragging, a move event keeps the drag and its offsets, and puts
    the icon at the pointer minus the offsets. *)
Lemma step_move_dragging ev st st' ox oy :
  is_move_event ev = true -> isDragging st.1 = true -> moveListener st.1 = true ->
  offsetX st.1 = Some ox -> offsetY st.1 = Some oy -> step ev st = Some st' ->
  isDragging st'.1 = true /\ moveListener st'.1 = true /\
  offsetX st'.1 = Some ox /\ offsetY st'.1 = Some oy /\
  position st' = match ev with MouseMove x y => (x - ox, y - oy)%Z | _ => position st end.
Proof.
  unfold position. destruct_dstate st. simpl. intros Hm Hd Hl Hx Hy H. subst.
  destruct ev; simpl in *; unfold onMouseMove in *; repeat case_match; by simplify_eq/=.
Qed.

Lemma run_moves evs st st' ox oy :
  Forall (fun ev => is_move_event ev = true) evs ->
  isDragging st.1 = true -> moveListener st.1 = true ->
  offsetX st.1 = Some ox -> offsetY st.1 = Some oy -> run evs st = Some st' ->
  isDragging st'.1 = true /\
  position st' = match last_move evs with
                 | Some (x, y) => (x - ox, y - oy)%Z
                 | None => position st
                 end.
Proof.
  intros Hall. revert st. induction Hall as [|ev evs Hev _ IH]; intros st Hd Hl Hx Hy H;
    simpl in H; [by simplify_eq|].
  destruct (step ev st) as [st1|] eqn:E; [|done].
  destruct (step_move_dragging ev st st1 ox oy) as (Hd1 & Hl1 & Hx1 & Hy1 & Hp1); auto.
  destruct (IH st1 Hd1 Hl1 Hx1 Hy1 H) as [Hd' Hp']. split; [done|].
  rewrite Hp'. destruct ev; simpl in *; rewrite ?Hp1; try discriminate;
    destruct (last_move evs) as [[]|]; simpl; congruence.
Qed.

(** From the release on, with no new press, the icon stays put and no drag
    starts. *)
Lemma run_released evs st st' :
  reachable_bracketed st -> pressedAt st.2 = None -> isDragging st.1 = false ->
  Forall (fun ev => keeps_button ev = true \/ ev = MouseUp) evs -> run evs st = Some st' ->
  isDragging st'.1 = false /\ position st' = position st.
Proof.
  intros Hr Hp Hd Hall. revert st Hr Hp Hd. induction Hall as [|ev evs Hev _ IH];
    intros st Hr Hp Hd H; simpl in H; [by simplify_eq|].
  destruct (step ev st) as [st1|] eqn:E; [|done].
  assert (reachable_bracketed st1) as Hr1
    by (eapply bracketed_step; eauto; by destruct Hev as [?| ->]; [destruct ev|]).
  assert (pressedAt st1.2 = None) as Hp1.
  { destruct Hev as [Hk| ->]; [by rewrite (step_keeps_pressed ev st st1)|].
    destruct_dstate st. by simplify_eq/=. }
  assert (isDragging st1.1 = false) as Hd1.
  { destruct (isDragging st1.1) eqn:Hd1; [|done].
    destruct (step_starts_drag ev st st1 E Hd1) as [?| ->]; [congruence|].
    destruct (reachable_press_inv st Hr) as [Hnone _].
    destruct_dstate st; simpl in *. by rewrite (Hnone Hp) in E. }
  destruct (IH st1 Hr1 Hp1 Hd1 H) as [? ->]. split; [done|].
  by apply (step_position_idle ev st st1).
Qed.

(** A press that has not lasted 300 ms leaves no drag, and the icon where
    it was. *)
Lemma run_short_hold evs st st' t0 :
  reachable_bracketed st -> pressedAt st.2 = Some t0 -> isDragging st.1 = false ->
  Forall (fun ev => keeps_button ev = true) evs -> run evs st = Some st' ->
  (now st'.2 < t0 + 300)%Z ->
  isDragging st'.1 = false /\ position st' = position st /\ pressedAt st'.2 = Some t0.
Proof.
  intros Hr Hp Hd Hall. revert st Hr Hp Hd. induction Hall as [|ev evs Hev _ IH];
    intros st Hr Hp Hd H Hnow; simpl in H; [by simplify_eq|].
  destruct (step ev st) as [st1|] eqn:E; [|done].
  pose proof (step_bracketed_reachable ev st st1 Hr Hev E) as Hr1.
  assert (pressedAt st1.2 = Some t0) as Hp1 by (by rewrite (step_keeps_pressed ev st st1)).
  assert (isDragging st1.1 = false) as Hd1.
  { destruct (isDragging st1.1) eqn:Hd1; [|done].
    destruct (reachable_press_inv st1 Hr1) as (_ & _ & Hdrag).
    destruct (Hdrag Hd1) as (t1 & Ht1 & Hle). rewrite Hp1 in Ht1. simplify_eq.
    pose proof (run_now_mono evs st1 st' H). lia. }
  destruct (IH st1 Hr1 Hp1 Hd1 H Hnow) as (? & -> & ?). repeat split; try done.
  by apply (step_position_idle ev st st1).
Qed.

Lemma listener_iff_dragging_helper st :
  reachable st -> moveListener st.1 = isDragging st.1.
Proof. intros Hr. apply (reachable_drag_inv st Hr). Qed.

Lemma run_bracketed_reachable_any evs st st' :
  reachable_bracketed st -> Forall (fun ev => keeps_button ev = true \/ ev = MouseUp) evs ->
  run evs st = Some st' -> reachable_bracketed st'.
Proof.
  intros Hr Hall. revert st Hr. induction Hall as [|ev evs Hev _ IH]; intros st Hr H;
    simpl in H; [by simplify_eq|].
  destruct (step ev st) as [st1|] eqn:E; [|done].
  eapply IH; [|exact H]. eapply bracketed_step; eauto.
  by destruct Hev as [?| ->]; [destruct ev|].
Qed.

Lemma run_bracketed_sound evs st st' :
  reachable_bracketed st -> run_bracketed evs st = Some st' -> reachable_bracketed st'.
Proof.
  revert st. induction evs as [|ev evs IH]; intros st Hr H; simpl in H; [by simplify_eq|].
  destruct (bracketed ev st) eqn:Hb; [|done].
  destruct (step ev st) as [st1|] eqn:E; [|done].
  eapply IH; [|exact H]. by eapply bracketed_step.
Qed.

(** ** At most one timer *)

Lemma step_single_timer ev st st' :
  press_inv st -> single_timer st -> bracketed ev st = true -> step ev st = Some st' ->
  single_timer st'.
Proof.
  unfold press_inv, single_timer. destruct_dstate st. simpl.
  intros (Hnone & _ & Hdrag) [Hlen Hd] Hbr H.
  destruct ev; simpl in *; unfold onMouseMove in *;
    repeat first [case_bool_decide | case_match]; simplify_eq/=; auto.
  - destruct pressedAt0; [done|]. rewrite (Hnone eq_refl). simpl. split; [lia|].
    intros Hd'. destruct (Hdrag Hd') as (? & ? & _). done.
  - split; [|done]. pose proof (filter_length_le
      (fun t => negb (bool_decide (Some (t_id t) = longPressTimeout0))) timers0). lia.
  - split; [|done]. pose proof (filter_length_le
      (fun t => negb (bool_decide (Some (t_id t) = longPressTimeout0))) timers0). lia.
  - simpl in Hlen. split; [lia|]. intros _. destruct l; [done|simpl in Hlen; lia].
Qed.

Lemma reachable_single_timer st : reachable_bracketed st -> single_timer st.
Proof.
  induction 1 as [x0 y0|ev st st' Hr IH Hbr Hs]; [split; simpl; [lia|done]|].
  by apply (step_single_timer ev st st'); [apply reachable_press_inv| | |].
Qed.

(** ** Theorems *)

(** C30: the [mousemove] listener is attached exactly while [isDragging]
    holds, and the offsets are numbers then, whatever the order of
    events. *)
Theorem listener_iff_dragging st :
  reachable st -> moveListener st.1 = isDragging st.1 /\
  (isDragging st.1 = true -> exists ox oy, offsetX st.1 = Some ox /\ offsetY st.1 = Some oy).
Proof. apply reachable_drag_inv. Qed.

(** C26: with presses released before the next one, a drag is under way only
    while the button is down and has been held for at least 300 ms. *)
Theorem drag_needs_long_press st :
  reachable_bracketed st -> isDragging st.1 = true ->
  exists t0, pressedAt st.2 = Some t0 /\ (t0 + 300 <= now st.2)%Z.
Proof. intros Hr Hd. by apply (reachable_press_inv st Hr). Qed.

(** C27: a press released before 300 ms never enters the drag state, leaves
    the icon where it was, and leaves no timer behind. *)
Theorem short_press_no_drag st x y evs st1 :
  reachable_bracketed st -> pressedAt st.2 = None ->
  Forall (fun ev => keeps_button ev = true) evs ->
  run (MouseDown x y :: evs) st = Some st1 -> (now st1.2 < now st.2 + 300)%Z ->
  isDragging st1.1 = false /\ position st1 = position st /\
  exists st2, step MouseUp st1 = Some st2 /\
    isDragging st2.1 = false /\ timers st2.2 = [] /\ position st2 = position st.
Proof.
  intros Hr Hp Hall H Hnow. simpl in H. rewrite step_mousedown in H.
  set (st0 := mousedown x y st) in H.
  assert (reachable_bracketed st0) as Hr0.
  { eapply bracketed_step; [exact Hr| |apply step_mousedown]. simpl. by rewrite Hp. }
  assert (isDragging st.1 = false) as Hd.
  { destruct (isDragging st.1) eqn:Hd; [|done].
    destruct (proj2 (proj2 (reachable_press_inv st Hr)) Hd) as (? & ? & _). congruence. }
  assert (pressedAt st0.2 = Some (now st.2) /\ isDragging st0.1 = false /\
          position st0 = position st) as (Hp0 & Hd0 & Hpos0).
  { unfold st0. destruct_dstate st. by simpl in *. }
  destruct (run_short_hold evs st0 st1 (now st.2) Hr0 Hp0 Hd0 Hall H Hnow) as (Hd1 & Hpos1 & _).
  rewrite Hpos0 in Hpos1. split; [done|]. split; [done|].
  exists (mouseup st1). split; [apply step_mouseup|].
  pose proof (reachable_press_inv (mouseup st1)) as Hinv.
  destruct Hinv as [Hnone _].
  { eapply (bracketed_step MouseUp); [|reflexivity|apply step_mouseup].
    by apply (run_bracketed_reachable evs st0). }
  split; [|split].
  - destruct_dstate st1. simpl in *. by subst.
  - apply Hnone. by destruct_dstate st1.
  - rewrite <- Hpos1. destruct_dstate st1. unfold position. simpl in *. by subst.
Qed.

(** C28: while dragging, the icon's corner is the last pointer position
    minus the offset taken at the start of the drag, whatever moves and
    frames came before: an absolute reposition, with no drift. *)
Theorem drag_follows_pointer st evs st' x y ox oy :
  reachable st -> isDragging st.1 = true ->
  offsetX st.1 = Some ox -> offsetY st.1 = Some oy ->
  Forall (fun ev => is_move_event ev = true) evs -> run evs st = Some st' ->
  last_move evs = Some (x, y) ->
  isDragging st'.1 = true /\ position st' = (x - ox, y - oy)%Z.
Proof.
  intros Hr Hd Hx Hy Hall H Hlast.
  pose proof (listener_iff_dragging_helper st Hr) as Hl. rewrite Hd in Hl.
  destruct (run_moves evs st st' ox oy Hall Hd Hl Hx Hy H) as [? Hp].
  by rewrite Hlast in Hp.
Qed.

(** C29: after a release, until the next press, the icon does not move and
    no drag starts, whatever pointer moves, timers and frames follow. *)
Theorem release_freezes st evs st' :
  reachable_bracketed st ->
  Forall (fun ev => keeps_button ev = true \/ ev = MouseUp) evs ->
  run (MouseUp :: evs) st = Some st' ->
  isDragging st'.1 = false /\ moveListener st'.1 = false /\
  position st' = position st.
Proof.
  intros Hr Hall H. simpl in H. rewrite step_mouseup in H.
  assert (reachable_bracketed (mouseup st)) as Hr1
    by (eapply (bracketed_step MouseUp); [exact Hr|reflexivity|apply step_mouseup]).
  assert (pressedAt (mouseup st).2 = None /\ isDragging (mouseup st).1 = false /\
          position (mouseup st) = position st) as (Hp1 & Hd1 & Hpos1).
  { destruct_dstate st. unfold position. simpl. by destruct isDragging0. }
  destruct (run_released evs (mouseup st) st' Hr1 Hp1 Hd1 Hall H) as [Hd' Hpos'].
  split; [done|]. split; [|congruence].
  rewrite (listener_iff_dragging_helper st'); [done|].
  apply reachable_bracketed_reachable.
  by apply (run_bracketed_reachable_any evs (mouseup st)).
Qed.

(** C31: the [requestAnimationFrame(onMouseMove)] call of the timer callback
    never moves the icon: the frame callback receives a timestamp, whose
    [clientX] is [undefined], and ["NaNpx"] is ignored. *)
Theorem frame_ignored st st' :
  step FrameFire st = Some st' -> position st' = position st /\ st'.1 = (st.1 |> onMouseMove None).
Proof.
  unfold position. destruct_dstate st. simpl. intros H.
  destruct frames0; simplify_eq/=. unfold onMouseMove. simpl.
  destruct isDragging0; simpl; [|done].
  by destruct offsetX0, offsetY0.
Qed.

(** C32: a second [mousedown] before the [mouseup] overwrites
    [longPressTimeout], so the release clears only the second timer. From
    any state with no timer pending, the first timer then fires 300 ms
    after the first press, with the button up, and starts a drag: the
    listener is attached and every later pointer move drags the icon,
    with the offset of the first press. *)
Theorem stale_timer_drag (st st1 : DState) (x1 y1 x2 y2 : Z) :
  timers st.2 = [] ->
  run [MouseDown x1 y1; MouseDown x2 y2; MouseUp; Advance 300] st = Some st1 ->
  pressedAt st1.2 = None /\
  exists st2, step TimerFire st1 = Some st2 /\ isDragging st2.1 = true /\
    moveListener st2.1 = true /\
    forall x y, exists st3, step (MouseMove x y) st2 = Some st3 /\
      position st3 = (x - (x1 - left st.1), y - (y1 - top st.1))%Z.
Proof.
  destruct_dstate st. simpl. intros -> Hrun. injection Hrun as <-.
  repeat (first [rewrite bool_decide_eq_false_2 by (intros [=]; lia)
                |rewrite bool_decide_eq_true_2 by (try done; lia)]; simpl).
  split; [done|]. eexists. split; [reflexivity|].
  destruct isDragging0; simpl; (split; [done|]); (split; [done|]);
    intros x y; eexists; (split; [reflexivity|]); unfold position; simpl; f_equal; lia.
Qed.

(** ** Witnesses *)

Lemma drag_after_hold_reachable : reachable_bracketed (drag_after evs_hold).
Proof. apply (run_bracketed_sound evs_hold (init 0 0)); [constructor|vm_compute; reflexivity]. Qed.

Lemma listener_iff_dragging_witness :
  reachable (drag_after evs_hold) /\ moveListener (drag_after evs_hold).1 = true /\
  isDragging (drag_after evs_hold).1 = true.
Proof.
  assert (reachable (drag_after evs_hold)) as Hr
    by apply reachable_bracketed_reachable, drag_after_hold_reachable.
  split; [exact Hr|]. split; [|vm_compute; reflexivity].
  rewrite (proj1 (listener_iff_dragging _ Hr)). vm_compute. reflexivity.
Defined.

Lemma drag_needs_long_press_witness :
  exists t0, pressedAt (drag_after evs_hold).2 = Some t0 /\ (t0 + 300 <= now (drag_after evs_hold).2)%Z.
Proof.
  apply drag_needs_long_press; [apply drag_after_hold_reachable|vm_compute; reflexivity].
Defined.

Lemma short_press_no_drag_witness :
  exists st2, step MouseUp (drag_after [MouseDown 50 50; Advance 100; MouseMove 80 90]) = Some st2 /\
    isDragging st2.1 = false /\ timers st2.2 = [] /\ position st2 = position (init 0 0).
Proof.
  refine (proj2 (proj2 (short_press_no_drag (init 0 0) 50 50 [Advance 100; MouseMove 80 90]
            (drag_after [MouseDown 50 50; Advance 100; MouseMove 80 90]) _ _ _ _ _))).
  - constructor.
  - reflexivity.
  - repeat constructor.
  - vm_compute. reflexivity.
  - vm_compute. reflexivity.
Defined.

Lemma drag_follows_pointer_witness :
  isDragging (drag_after (evs_hold ++ [MouseMove 120 80; FrameFire; MouseMove 200 150])).1 = true /\
  position (drag_after (evs_hold ++ [MouseMove 120 80; FrameFire; MouseMove 200 150])) = (150, 100)%Z.
Proof.
  apply (drag_follows_pointer (drag_after evs_hold) [MouseMove 120 80; FrameFire; MouseMove 200 150]
           _ 200 150 50 50).
  - apply reachable_bracketed_reachable, drag_after_hold_reachable.
  - vm_compute. reflexivity.
  - vm_compute. reflexivity.
  - vm_compute. reflexivity.
  - repeat constructor.
  - vm_compute. reflexivity.
  - reflexivity.
Defined.

Lemma release_freezes_witness :
  isDragging (drag_after (evs_hold ++ [MouseUp; MouseMove 300 300; Advance 500; FrameFire])).1 = false /\
  moveListener (drag_after (evs_hold ++ [MouseUp; MouseMove 300 300; Advance 500; FrameFire])).1 = false /\
  position (drag_after (evs_hold ++ [MouseUp; MouseMove 300 300; Advance 500; FrameFire])) =
    position (drag_after evs_hold).
Proof.
  apply (release_freezes (drag_after evs_hold) [MouseMove 300 300; Advance 500; FrameFire]).
  - apply drag_after_hold_reachable.
  - repeat constructor.
  - vm_compute. reflexivity.
Defined.

Lemma frame_ignored_witness :
  step FrameFire (drag_after evs_hold) = Some (drag_after (evs_hold ++ [FrameFire])) /\
  position (drag_after (evs_hold ++ [FrameFire])) = position (drag_after evs_hold).
Proof.
  assert (step FrameFire (drag_after evs_hold) = Some (drag_after (evs_hold ++ [FrameFire]))) as Hs
    by (vm_compute; reflexivity).
  split; [exact Hs|]. exact (proj1 (frame_ignored _ _ Hs)).
Defined.

Lemma stale_timer_drag_witness :
  timers (init 0 0).2 = [] /\
  run evs_double_press (init 0 0) = Some (drag_after evs_double_press) /\
  pressedAt (drag_after evs_double_press).2 = None /\
  exists st2, step TimerFire (drag_after evs_double_press) = Some st2 /\
    isDragging st2.1 = true /\ moveListener st2.1 = true /\
    forall x y, exists st3, step (MouseMove x y) st2 = Some st3 /\
      position st3 = (x - (50 - left (init 0 0).1), y - (50 - top (init 0 0).1))%Z.
Proof.
  assert (run evs_double_press (init 0 0) = Some (drag_after evs_double_press)) as Hrun
    by (vm_compute; reflexivity).
  split; [reflexivity|]. split; [exact Hrun|].
  exact (stale_timer_drag (init 0 0) _ 50 50 60 60 eq_refl Hrun).
Defined.

End Drag.
