(* ===== verification/System.v ===== *)
(** * System: the assistant and the drag recogniser on one icon

    The two machines share the icon element only. The icon receives
    [mousedown] (the drag recogniser's press) and [click] (the assistant's
    [startListening], lines 98-100). The document receives [mousemove] and
    [mouseup]. The browser dispatches [click] after a [mouseup] when the
    press and the release both hit the icon. The release's [mouseup]
    listeners run before that [click].

    [SState] pairs the two states with the browser's record of where the
    button went down ([downOnIcon]). The icon is a box of [iconW] by
    [iconH] at the drag state's [left]/[top]. A pointer event hits the icon
    when it falls in that box. [sys_step] routes each event to the machine
    that listens for it. *)

From stdpp Require Import base list strings.
From Stdlib Require Import ZArith Lia.
From S2P Require Import Prelude Engines Command Assistant Drag.

Module System.
Import WebSpeech.

(** ** Data *)

Inductive SEvent :=
  | PDown (x y : Z)              (** the button goes down at (x, y) *)
  | PMove (x y : Z)
  | PUp (x y : Z) (hrs : Z)      (** the button comes up; [getHours()] for a click *)
  | PAdvance (dt : Z)
  | PTimer
  | PFrame
  | Speech (ev : Assistant.AEvent). (** a recogniser or synthesiser event *)

Section System.
Context {R : Type} `{!Recognizer R}.
Context (iconW iconH : Z).

Record SState := mkSys {
  asst : @Assistant.AState R;
  drag : Drag.DState;
  downOnIcon : bool
}.

(** The point (x, y) is inside the icon's box. *)
Definition hit (d : Drag.DState) (x y : Z) : bool :=
  bool_decide (Drag.left d.1 <= x < Drag.left d.1 + iconW)%Z &&
  bool_decide (Drag.top d.1 <= y < Drag.top d.1 + iconH)%Z.

(** The drag machine's step inside the system. *)
Definition drag_step (ev : Drag.DEvent) (st : SState) : option SState :=
  d' ← Drag.step ev (drag st); Some (mkSys (asst st) d' (downOnIcon st)).

(** The release: the document's [mouseup] listener, then the [click] on
    the icon when press and release both hit it. *)
Definition release (x y hrs : Z) (st : SState) : option SState :=
  let d' := Drag.mouseup (drag st) in
  if downOnIcon st && hit d' x y
  then a' ← Assistant.step (Assistant.Click hrs) (asst st); Some (mkSys a' d' false)
  else Some (mkSys (asst st) d' false).

Definition sys_step (ev : SEvent) (st : SState) : option SState :=
  match ev with
  | PDown x y =>
      if hit (drag st) x y
      then drag_step (Drag.MouseDown x y) (mkSys (asst st) (drag st) true)
      else Some (mkSys (asst st) (drag st) false)
  | PMove x y => drag_step (Drag.MouseMove x y) st
  | PUp x y hrs => release x y hrs st
  | PAdvance dt => drag_step (Drag.Advance dt) st
  | PTimer => drag_step Drag.TimerFire st
  | PFrame => drag_step Drag.FrameFire st
  | Speech (Assistant.Click _) => None
  | Speech ev => a' ← Assistant.step ev (asst st); Some (mkSys a' (drag st) (downOnIcon st))
  end.

Fixpoint sys_run (evs : list SEvent) (st : SState) : option SState :=
  match evs with
  | [] => Some st
  | ev :: evs => st' ← sys_step ev st; sys_run evs st'
  end.

Definition sys_init (href : string) (x0 y0 : Z) : SState :=
  mkSys (Assistant.init href) (Drag.init x0 y0) false.

Inductive sys_reachable : SState -> Prop :=
  | sys_reachable_init h x0 y0 : sys_reachable (sys_init h x0 y0)
  | sys_reachable_step ev st st' :
      sys_reachable st -> sys_step ev st = Some st' -> sys_reachable st'.

(** Every press is released before the next press on the icon. *)
Definition sys_bracketed (ev : SEvent) (st : SState) : bool :=
  match ev with
  | PDown _ _ => is_nil (option_list (Drag.pressedAt (drag st).2))
  | _ => true
  end.

Inductive sys_reachable_br : SState -> Prop :=
  | sys_br_init h x0 y0 : sys_reachable_br (sys_init h x0 y0)
  | sys_br_step ev st st' :
      sys_reachable_br st -> sys_bracketed ev st = true -> sys_step ev st = Some st' ->
      sys_reachable_br st'.

(** The press point of every pending timer is inside the icon's box, and
    while dragging the offsets are inside the box. *)
Definition box_inv (d : Drag.DState) : Prop :=
  Forall (fun t => hit d (Drag.t_clientX t) (Drag.t_clientY t) = true) (Drag.timers d.2) /\
  (Drag.isDragging d.1 = true ->
   exists ox oy, Drag.offsetX d.1 = Some ox /\ Drag.offsetY d.1 = Some oy /\
     (0 <= ox < iconW)%Z /\ (0 <= oy < iconH)%Z).

(** [sys_run] that refuses a press while the button is down. *)
Fixpoint sys_run_br (evs : list SEvent) (st : SState) : option SState :=
  match evs with
  | [] => Some st
  | ev :: evs => if sys_bracketed ev st then st' ← sys_step ev st; sys_run_br evs st' else None
  end.

End System.

(** ** Concrete schedules: the Web Speech recogniser and a 60 by 60 icon at
    (0, 0) on a page [contact.html] *)

Definition sys_page : string := "https://example.org/site/contact.html".

Definition sys_after (evs : list SEvent) : @SState RecState :=
  from_option id (sys_init sys_page 0 0) (sys_run 60 60 evs (sys_init sys_page 0 0)).

(** Press the icon 30 px inside its corner and hold it. *)
Definition evs_press : list SEvent := [PDown 30 30; PAdvance 300; PTimer].

(** Then drag it to (200, 200) and release it there. *)
Definition evs_drag : list SEvent := evs_press ++ [PMove 200 200; PUp 200 200 9].

Section Proofs.
Context {R : Type} `{!Recognizer R}.
Context (iconW iconH : Z).

(** ** Lemmas *)

Lemma startListening_listening hrs (a : @Assistant.AState R) :
  Assistant.isListening (Assistant.startListening hrs a) = true.
Proof.
  destruct a as [[] w sp u r q h un lg]; [done|].
  unfold Assistant.startListening, Assistant.listeningStarted, Assistant.recStartThen,
    Assistant.wishMe, Assistant.speak, Assistant.when, Assistant.recStop, Assistant.toggleChat,
    Assistant.console_log, Assistant.enqueue; simpl.
  destruct w; simpl; [|done]. by destruct (rec_start r).
Qed.

Lemma mouseup_position (d : Drag.DState) : Drag.position (Drag.mouseup d) = Drag.position d.
Proof. destruct d as [[[] ? ? ? ? ? ? ?] ?]; done. Qed.

Lemma hit_offset (d : Drag.DState) x y ox oy :
  Drag.position d = (x - ox, y - oy)%Z -> (0 <= ox < iconW)%Z -> (0 <= oy < iconH)%Z ->
  hit iconW iconH d x y = true.
Proof.
  unfold hit, Drag.position. intros [= Hl Ht] Hx Hy.
  rewrite Hl, Ht. rewrite !bool_decide_eq_true_2; [done|lia|lia].
Qed.

(** ** The press offset stays inside the icon *)

Lemma hit_same_position (d d' : Drag.DState) x y :
  Drag.position d' = Drag.position d -> hit iconW iconH d' x y = hit iconW iconH d x y.
Proof. unfold hit, Drag.position. intros [= -> ->]. done. Qed.

Lemma box_inv_same_position (d d' : Drag.DState) :
  Drag.position d' = Drag.position d -> Drag.timers d'.2 = Drag.timers d.2 ->
  Drag.isDragging d'.1 = false -> box_inv iconW iconH d -> box_inv iconW iconH d'.
Proof.
  intros Hp Ht Hd [Hall _]. split; [|by rewrite Hd]. rewrite Ht.
  eapply Forall_impl; [exact Hall|]. intros t. by rewrite (hit_same_position d d').
Qed.

Lemma box_inv_step ev (d d' : Drag.DState) :
  Drag.reachable_bracketed d -> box_inv iconW iconH d -> Drag.bracketed ev d = true ->
  (forall x y, ev = Drag.MouseDown x y -> hit iconW iconH d x y = true) ->
  Drag.step ev d = Some d' -> box_inv iconW iconH d'.
Proof.
  intros Hr [Hall Hbox] Hbr Hdown Hs.
  destruct (Drag.reachable_press_inv d Hr) as (Hnone & _ & Hdrag).
  destruct (Drag.reachable_single_timer d Hr) as [Hlen Hd0].
  unfold box_inv, hit in *. destruct d as [[dr ox oy lp c l t m] [n q id fr p]]; simpl in *.
  destruct ev; simpl in *; unfold Drag.onMouseMove in *;
    repeat first [case_bool_decide | case_match]; simplify_eq/=.
  - (* mousedown on the icon: the new timer's point is inside *)
    destruct p; [done|]. rewrite (Hnone eq_refl). simpl. split.
    + repeat constructor. by apply (Hdown _ _ eq_refl).
    + intros ->. destruct (Hdrag eq_refl) as (? & ? & _). done.
  - (* mousemove while dragging: no timer is pending *)
    rewrite (Hd0 eq_refl). split; [constructor|exact Hbox].
  - (* mousemove while not dragging *)
    split; [done|]. intros; congruence.
  - split; [done|exact Hbox].
  - (* mouseup: a sub-queue, the icon in place, the drag over *)
    split; [|done]. apply Forall_filter'. done.
  - split; [|done]. apply Forall_filter'. done.
  - split; [done|exact Hbox].
  - (* timer: the offsets are taken from a point inside the box *)
    apply Forall_cons in Hall as [Hhit Hq]. apply andb_prop in Hhit as [Hx Hy].
    apply bool_decide_eq_true_1 in Hx, Hy. split; [exact Hq|].
    intros _. eexists _, _. split; [reflexivity|]. split; [reflexivity|]. lia.
  - (* frame while dragging: NaN leaves everything *)
    destruct ox, oy; simpl; split; auto.
  - split; auto.
Qed.

Lemma sys_step_inv ev st st' :
  Drag.reachable_bracketed (drag st) /\ box_inv iconW iconH (drag st) ->
  sys_bracketed ev st = true -> sys_step iconW iconH ev st = Some st' ->
  Drag.reachable_bracketed (drag st') /\ box_inv iconW iconH (drag st').
Proof.
  intros [Hr Hbox] Hbr Hs. destruct st as [a d dn].
  assert (forall dev d', Drag.bracketed dev d = true ->
            (forall x y, dev = Drag.MouseDown x y -> hit iconW iconH d x y = true) ->
            Drag.step dev d = Some d' ->
            Drag.reachable_bracketed d' /\ box_inv iconW iconH d') as Hdrag.
  { intros dev d' Hb Hd Hs'. split; [by eapply Drag.bracketed_step|].
    by apply (box_inv_step dev d d'). }
  unfold sys_step, drag_step, release in Hs; simpl in *.
  destruct ev as [x y|x y|x y hrs|dt| | |ev]; unfold mbind, option_bind in Hs;
    repeat case_match; simplify_eq/=; try done;
    match goal with
    | H : Drag.step ?dev d = Some _ |- _ =>
        apply (Hdrag dev);
          [done | intros ? ? Heq; first [discriminate Heq | injection Heq as <- <-; done] | exact H]
    | |- _ => apply (Hdrag Drag.MouseUp); [done | by intros ? ? [=] | apply Drag.step_mouseup]
    end.
Qed.

Lemma sys_reachable_br_inv st :
  sys_reachable_br iconW iconH st ->
  Drag.reachable_bracketed (drag st) /\ box_inv iconW iconH (drag st).
Proof.
  induction 1 as [h x0 y0|ev st st' _ IH Hbr Hs].
  - split; [constructor|]. split; [constructor|done].
  - by apply (sys_step_inv ev st st').
Qed.

Lemma sys_run_br_sound evs st st' :
  sys_reachable_br iconW iconH st -> sys_run_br iconW iconH evs st = Some st' ->
  sys_reachable_br iconW iconH st'.
Proof.
  revert st. induction evs as [|ev evs IH]; intros st Hr H; simpl in H; [by simplify_eq|].
  destruct (sys_bracketed ev st) eqn:Hb; [|done].
  destruct (sys_step _ _ ev st) as [st1|] eqn:E; [|done].
  eapply IH; [|exact H]. by eapply sys_br_step.
Qed.

(** ** Theorems *)

(** C34: releasing the button at the end of a drag is a click on the icon.
    In every state reached with bracketed presses where the icon has
    followed the pointer, the release hits the icon, because the offsets
    lie inside it. When the assistant is idle, the drag activates it. *)
Theorem drag_release_activates st x y hrs ox oy st' :
  sys_reachable_br iconW iconH st -> downOnIcon st = true ->
  Drag.isDragging (drag st).1 = true ->
  Drag.offsetX (drag st).1 = Some ox -> Drag.offsetY (drag st).1 = Some oy ->
  Drag.position (drag st) = (x - ox, y - oy)%Z ->
  Assistant.unloaded (asst st) = false ->
  sys_step iconW iconH (PUp x y hrs) st = Some st' ->
  Assistant.isListening (asst st') = true /\ Drag.isDragging (drag st').1 = false.
Proof.
  intros Hr Hdn Hd Hox Hoy Hpos Hun H.
  destruct (sys_reachable_br_inv st Hr) as [_ [_ Hbox]].
  destruct (Hbox Hd) as (ox' & oy' & Hox' & Hoy' & Hx & Hy).
  rewrite Hox in Hox'. rewrite Hoy in Hoy'. simplify_eq.
  assert (hit iconW iconH (Drag.mouseup (drag st)) x y = true) as Hhit
    by (apply (hit_offset _ x y ox' oy'); [rewrite mouseup_position|..]; done).
  simpl in H. unfold release in H. rewrite Hdn, Hhit in H. simpl in H.
  unfold Assistant.step in H. rewrite Hun in H. simpl in H.
  injection H as <-. simpl. split; [apply startListening_listening|].
  destruct (drag st) as [[[] ? ? ? ? ? ? ?] ?]; done.
Qed.

(** C33: the press offset stays inside the icon. With every press
    released before the next one, while the icon is being dragged the
    offsets of the pointer from its corner lie in [0, iconW) and
    [0, iconH): the press that armed the timer hit the icon, and the icon
    does not move until the timer has fired. *)
Theorem drag_offset_in_icon st :
  sys_reachable_br iconW iconH st -> Drag.isDragging (drag st).1 = true ->
  exists ox oy, Drag.offsetX (drag st).1 = Some ox /\ Drag.offsetY (drag st).1 = Some oy /\
    (0 <= ox < iconW)%Z /\ (0 <= oy < iconH)%Z.
Proof. intros Hr Hd. by apply (sys_reachable_br_inv st Hr). Qed.

End Proofs.

(** ** Witnesses *)

Lemma sys_after_press_move_reachable :
  sys_reachable_br 60 60 (sys_after (evs_press ++ [PMove 200 200])).
Proof.
  apply (sys_run_br_sound 60 60 (evs_press ++ [PMove 200 200]) (sys_init sys_page 0 0));
    [constructor|vm_compute; reflexivity].
Qed.

Lemma drag_release_activates_witness :
  Assistant.isListening (asst (sys_after evs_drag)) = true /\
  Drag.isDragging (drag (sys_after evs_drag)).1 = false.
Proof.
  apply (drag_release_activates 60 60 (sys_after (evs_press ++ [PMove 200 200])) 200 200 9 30 30).
  - apply sys_after_press_move_reachable.
  - vm_compute. reflexivity.
  - vm_compute. reflexivity.
  - vm_compute. reflexivity.
  - vm_compute. reflexivity.
  - vm_compute. reflexivity.
  - vm_compute. reflexivity.
  - vm_compute. reflexivity.
Defined.

Lemma drag_offset_in_icon_witness :
  exists ox oy, Drag.offsetX (drag (sys_after (evs_press ++ [PMove 200 200]))).1 = Some ox /\
    Drag.offsetY (drag (sys_after (evs_press ++ [PMove 200 200]))).1 = Some oy /\
    (0 <= ox < 60)%Z /\ (0 <= oy < 60)%Z.
Proof.
  apply drag_offset_in_icon; [apply sys_after_press_move_reachable|vm_compute; reflexivity].
Defined.

End System.
