(* ===== verification/Load.v ===== *)
(** * Load: the script's top level at page load

    Before any handler can run, the script's top level (lines 1-26, the
    handler assignments of lines 69 and 77 and the listener registrations
    of lines 98, 159 and 186) executes once, in order:
    - the support check of lines 3-6 tests whether the names
      [webkitSpeechRecognition] and [SpeechRecognition] are properties of
      [window] ([in]), and shows an [alert] when neither is;
    - lines 9-11 look up the icon, the popup and the main container;
    - line 22 picks the first truthy of [window.SpeechRecognition] and
      [window.webkitSpeechRecognition] ([||]), and line 23 calls [new] on
      it, which throws a [TypeError] when it is not a constructor;
    - lines 25-26 set [continuous] and [interimResults] to [false] (the
      record [RecConfig] of [Engines]);
    - lines 69 and 77 install the recognition callbacks, and lines 98, 159
      and 186 register the [click], [mousedown] and [mouseup] listeners
      (one definition each).
    An uncaught exception ends the script: nothing after it runs.

    [Window] describes what the page offers: each of the two recogniser
    names is absent, present with a falsy value, present with a truthy
    value that is no constructor, or a constructor, and the icon element
    exists or not. [load] returns the observable effects
    in order and whether the script ran to its end. The models of
    [Assistant], [Drag] and [System] describe the page after a load that
    ran to its end. *)

From stdpp Require Import base list strings.
From S2P Require Import Prelude Engines.

Module Load.

(** ** Data *)

(** A property of [window]. *)
Inductive JsProp :=
  | Absent          (** not a property: [in] is false *)
  | Falsy           (** a property whose value is falsy, e.g. [undefined] *)
  | NonCtor         (** a truthy value that is not a constructor, e.g. [{}] *)
  | Ctor.           (** a constructor *)

Record Window := mkWindow {
  webkitSpeechRecognition : JsProp;
  SpeechRecognition : JsProp;
  iconElement : bool     (** [document.getElementById("chatbot-icon-container")] is not [null] *)
}.

Inductive LoadEffect :=
  | EAlert (msg : string)
  | EThrow (error : string)                    (** uncaught exception: the script stops *)
  | EConfigure (cfg : RecConfig)               (** lines 25-26 *)
  | ERegister (target event : string).         (** a handler installed *)

(** ** Operations *)

(** [name in window]. *)
Definition js_in (p : JsProp) : bool :=
  match p with Absent => false | _ => true end.

Definition truthy (p : JsProp) : bool :=
  match p with Absent | Falsy => false | NonCtor | Ctor => true end.

Definition alertText : string :=
  "Your browser does not support speech recognition. Please use Google Chrome or another supported browser.".

(** Lines 3-6. *)
Definition supportCheck (w : Window) : list LoadEffect :=
  if negb (js_in (webkitSpeechRecognition w)) && negb (js_in (SpeechRecognition w))
  then [EAlert alertText] else [].

(** Line 22, [window.SpeechRecognition || window.webkitSpeechRecognition]:
    the value chosen, [None] when both are falsy. *)
Definition speechRecognitionCtor (w : Window) : option JsProp :=
  if truthy (SpeechRecognition w) then Some (SpeechRecognition w)
  else if truthy (webkitSpeechRecognition w) then Some (webkitSpeechRecognition w)
  else None.

Definition notCtorError : string := "TypeError: speechRecognition is not a constructor".
Definition nullIconError : string :=
  "TypeError: Cannot read properties of null (reading 'addEventListener')".

(** [recognition.onresult = ...] (line 69). *)
Definition resultHandler : LoadEffect := ERegister "recognition" "result".
(** [recognition.onend = ...] (line 77). *)
Definition endHandler : LoadEffect := ERegister "recognition" "end".
(** [chatbotIconContainer.addEventListener("click", ...)] (line 98). *)
Definition clickListener : LoadEffect := ERegister "chatbot-icon-container" "click".
(** [chatbotIconContainer.addEventListener("mousedown", ...)] (line 159). *)
Definition mousedownListener : LoadEffect := ERegister "chatbot-icon-container" "mousedown".
(** [document.addEventListener("mouseup", ...)] (line 186). *)
Definition mouseupListener : LoadEffect := ERegister "document" "mouseup".

(** The registrations in the order the top level runs them. *)
Definition recognitionHandlers : list LoadEffect := [resultHandler; endHandler].
Definition pointerListeners : list LoadEffect := [clickListener; mousedownListener; mouseupListener].

(** The whole top level: the effects in order, and whether it ran to the
    end. Line 23 throws unless the value chosen is a constructor. *)
Definition load (w : Window) : list LoadEffect * bool :=
  let effs := supportCheck w in
  match speechRecognitionCtor w with
  | None | Some Absent | Some Falsy | Some NonCtor => (effs ++ [EThrow notCtorError], false)
  | Some Ctor =>
      let effs := effs ++ [EConfigure (mkRecConfig false false)] ++ recognitionHandlers in
      if iconElement w then (effs ++ pointerListeners, true)
      else (effs ++ [EThrow nullIconError], false)
  end.

(** The listeners the page ends up with. *)
Definition registered (w : Window) : list LoadEffect :=
  List.filter (fun e => match e with ERegister _ _ => true | _ => false end) (load w).1.

(** Both recogniser names are missing. *)
Definition unsupported (w : Window) : bool :=
  negb (js_in (webkitSpeechRecognition w)) && negb (js_in (SpeechRecognition w)).

(** ** Theorems *)

(** The settings line 25-26 give the recogniser, when the script gets
    that far. *)
Lemma load_config (w : Window) (cfg : RecConfig) :
  In (EConfigure cfg) (load w).1 -> cfg = mkRecConfig false false.
Proof.
  unfold load, supportCheck. destruct w as [wk sr icon].
  destruct (speechRecognitionCtor _) as [[]|]; case_ifs; simpl; intros H;
    repeat (destruct H as [H|H]; [try congruence|]); done.
Qed.

(** C19: the outcome of the page load. The script runs to its end exactly
    when the recogniser value it picks is a constructor and the icon
    exists; the page then has the two recognition callbacks and the three
    pointer listeners the other files model. When neither name exists, the
    alert is shown and line 23 throws at once: no listener at all is
    registered, so the icon cannot be dragged either. When a name exists
    but the value picked is no constructor, there is no alert and the
    script throws all the same. *)
Theorem load_outcomes (w : Window) :
  ((load w).2 = true <-> speechRecognitionCtor w = Some Ctor /\ iconElement w = true) /\
  ((load w).2 = true -> registered w = recognitionHandlers ++ pointerListeners) /\
  (unsupported w = true -> load w = ([EAlert alertText; EThrow notCtorError], false)) /\
  (unsupported w = false -> speechRecognitionCtor w <> Some Ctor ->
     load w = ([EThrow notCtorError], false)).
Proof.
  destruct w as [wk sr icon].
  unfold load, registered, supportCheck, unsupported, speechRecognitionCtor; simpl.
  destruct sr, wk, icon; simpl; repeat split; intros; try done;
    repeat match goal with H : _ /\ _ |- _ => destruct H end; congruence.
Qed.

(** C20: the settings the script gives the recogniser (lines 25-26) make
    every result event it delivers hold exactly one result, final, and line
    70 then reads the transcript of that result's first alternative
    without throwing: no partial transcript and no earlier result reaches
    [takeCommand]. *)
Theorem configured_result_readable (w : Window) (cfg : RecConfig) (ev : SpeechRecognitionEvent) :
  In (EConfigure cfg) (load w).1 -> WebSpeech.delivered cfg ev = true ->
  exists r a alts, results ev = [r] /\ resultIndex ev = 0 /\ isFinal r = true /\
    alternatives r = a :: alts /\ transcriptOf ev = JsOk (transcript a).
Proof. intros Hcfg%load_config Hd. subst cfg. by apply single_final_readable. Qed.

(** ** Witnesses *)

(** A browser with the standard constructor and the icon. *)
Definition chrome : Window := mkWindow Absent Ctor true.

Lemma configured_result_readable_witness :
  In (EConfigure (mkRecConfig false false)) (load chrome).1 /\
  WebSpeech.delivered (mkRecConfig false false) (WebSpeech.heard "hello") = true /\
  exists r a alts, results (WebSpeech.heard "hello") = [r] /\
    resultIndex (WebSpeech.heard "hello") = 0 /\ isFinal r = true /\
    alternatives r = a :: alts /\ transcriptOf (WebSpeech.heard "hello") = JsOk (transcript a).
Proof.
  assert (In (EConfigure (mkRecConfig false false)) (load chrome).1) as Hin
    by (vm_compute; auto 10).
  assert (WebSpeech.delivered (mkRecConfig false false) (WebSpeech.heard "hello") = true) as Hd
    by (vm_compute; reflexivity).
  split; [exact Hin|]. split; [exact Hd|].
  exact (configured_result_readable chrome _ _ Hin Hd).
Defined.

End Load.
